(** * Solar dashboard: data loading, aggregation and ranking

    A shallow embedding of [app/utils.py]: the per-country loader
    [load_country_data], the aggregator [load_all_countries_data], the
    boxplot helper [create_comparison_boxplot] and the ranking table
    [create_ghi_ranking_table], together with the fragments of pandas,
    plotly, streamlit and [os.path] those functions call.

    Conventions.
    - Numbers are exact rationals ([Q]); int64 and float64 cells are both
      [Num].  Rounding of float64 arithmetic is outside the model.
    - A table is stored row by row: a row is its index label and the cells
      under each column label.
    - Python exceptions are values of [exn]; a computation that may raise
      returns a [result].
    - Functions that touch the file system, the streamlit cache or the page
      run in the monad [M], which reads a [World], threads the [Caches] and
      emits a list of [event]s. *)

From Stdlib Require Import Ascii String QArith Qreduction Permutation Sorted.
From stdpp Require Import gmap strings list fin_maps.

Open Scope string_scope.
Open Scope list_scope.

(** ** Cells, exceptions, results *)

Inductive value : Type :=
| NaN
| Num (q : Q)
| Str (s : string).

(** The exceptions the program can meet; all are subclasses of
    [Exception]. *)
Inductive exn : Type :=
| FileNotFoundError (msg : string)
| KeyError (msg : string)
| TypeError (msg : string)
| ValueError (msg : string)
| OtherException (msg : string).

(** [str(e)] *)
Definition exn_str (e : exn) : string :=
  match e with
  | FileNotFoundError m | KeyError m | TypeError m | ValueError m
  | OtherException m => m
  end.

Inductive result (A : Type) : Type :=
| Ok (a : A)
| Raise (e : exn).
Arguments Ok {A} a.
Arguments Raise {A} e.

Definition rbind {A B} (f : A -> result B) (r : result A) : result B :=
  match r with
  | Ok a => f a
  | Raise e => Raise e
  end.

#[global] Instance result_bind : MBind result := @rbind.
#[global] Instance result_ret : MRet result := @Ok.

Fixpoint rmapM {A B} (f : A -> result B) (l : list A) : result (list B) :=
  match l with
  | [] => Ok []
  | a :: l' => b ← f a; bs ← rmapM f l'; Ok (b :: bs)
  end.

(** ** pandas: DataFrame and Series *)

Record DataFrame : Type := mkDataFrame {
  columns : list string;
  rows : list (value * list value)
}.

Record Series : Type := mkSeries {
  s_name : string;
  s_index_name : string;
  s_items : list (value * value)
}.

(** [pd.DataFrame()] *)
Definition pd_DataFrame : DataFrame := mkDataFrame [] [].

(** [pd.DataFrame({col: cells})] with the default [RangeIndex]. *)
Definition range_index (n : nat) : list value :=
  List.map (fun i => Num (inject_Z (Z.of_nat i))) (seq 0 n).

Definition pd_DataFrame_dict (col : string) (cells : list value) : DataFrame :=
  mkDataFrame [col]
    (combine (range_index (length cells)) (List.map (fun c => [c]) cells)).

(** [df.empty]: some axis has length zero. *)
Definition df_empty (df : DataFrame) : bool :=
  match columns df, rows df with
  | [], _ => true
  | _, [] => true
  | _, _ => false
  end.

(** [df.index] *)
Definition df_index (df : DataFrame) : list value := List.map fst (rows df).

(** [col in df.columns] *)
Definition in_columns (col : string) (df : DataFrame) : bool :=
  existsb (String.eqb col) (columns df).

(** Position of the first column carrying a label. *)
Fixpoint col_pos (col : string) (cols : list string) : option nat :=
  match cols with
  | [] => None
  | c :: cols' =>
      if String.eqb col c then Some 0%nat
      else option_map S (col_pos col cols')
  end.

Definition cell (j : nat) (cells : list value) : value := nth j cells NaN.

(** [df[col]] *)
Definition df_getitem (df : DataFrame) (col : string) : result Series :=
  match col_pos col (columns df) with
  | None => Raise (KeyError col)
  | Some j =>
      Ok (mkSeries col "" (List.map (fun r => (fst r, cell j (snd r))) (rows df)))
  end.

(** [df[col] = scalar]: overwrite the column, or append it. *)
Definition df_setitem (df : DataFrame) (col : string) (v : value) : DataFrame :=
  match col_pos col (columns df) with
  | Some j =>
      mkDataFrame (columns df)
        (List.map (fun r => (fst r, <[j := v]> (snd r))) (rows df))
  | None =>
      mkDataFrame (columns df ++ [col])
        (List.map (fun r => (fst r, snd r ++ [v])) (rows df))
  end.

(** [series > threshold] for a numeric threshold: [NaN] compares false,
    a string cell makes the comparison raise. *)
Definition value_gt (threshold : Q) (v : value) : result bool :=
  match v with
  | NaN => Ok false
  | Num q => Ok (negb (Qle_bool q threshold))
  | Str _ => Raise (TypeError "'>' not supported between instances of 'str' and 'int'")
  end.

Definition series_gt (s : Series) (threshold : Q) : result (list bool) :=
  rmapM (fun it => value_gt threshold (snd it)) (s_items s).

(** [df[mask]] with a boolean mask aligned with the rows. *)
Definition df_mask (df : DataFrame) (mask : list bool) : DataFrame :=
  mkDataFrame (columns df)
    (List.map fst (List.filter snd (combine (rows df) mask))).

(** ** The environment: files, the page, the streamlit cache *)

(** What [pd.read_csv] finds at a path: something it cannot read or parse
    (it raises [e]; a file that vanished after [os.path.exists] saw it is
    [Unreadable (FileNotFoundError _)]), or the column labels of the header
    and the records below it. *)
Inductive file : Type :=
| Unreadable (e : exn)
| Csv (header : list string) (records : list (list value)).

(** [module_dir] is [os.path.dirname(__file__)], [cwd] the working
    directory; [fs] maps absolute paths to what is stored there. *)
Record World : Type := mkWorld {
  module_dir : string;
  cwd : string;
  fs : string -> option file
}.

Inductive event : Type :=
| EvExists (path : string)      (* os.path.exists(path) *)
| EvReadCsv (path : string)     (* pd.read_csv(path, ...) *)
| EvStError (msg : string).     (* st.error(msg) *)

(** A cache entry keeps the returned value and the page messages the call
    produced; streamlit replays them on a hit. *)
Record Caches : Type := mkCaches {
  country_cache : gmap string (DataFrame * list string);
  all_cache : gmap (list string) (DataFrame * list string)
}.

Definition no_caches : Caches := mkCaches ∅ ∅.

Definition M (A : Type) : Type :=
  World -> Caches -> result A * Caches * list event.

Definition ret {A} (a : A) : M A := fun _ c => (Ok a, c, []).

Definition bind {A B} (f : A -> M B) (m : M A) : M B :=
  fun w c =>
    match m w c with
    | (Ok a, c1, ev1) =>
        match f a w c1 with
        | (r, c2, ev2) => (r, c2, ev1 ++ ev2)
        end
    | (Raise e, c1, ev1) => (Raise e, c1, ev1)
    end.

#[global] Instance M_bind : MBind M := @bind.
#[global] Instance M_ret : MRet M := @ret.

Definition lift {A} (r : result A) : M A := fun _ c => (r, c, []).

(** [try: m  except Exception as e: h e] *)
Definition try_except {A} (m : M A) (h : exn -> M A) : M A :=
  fun w c =>
    match m w c with
    | (Raise e, c1, ev1) =>
        match h e w c1 with
        | (r, c2, ev2) => (r, c2, ev1 ++ ev2)
        end
    | ok => ok
    end.

Definition st_error (msg : string) : M unit :=
  fun _ c => (Ok tt, c, [EvStError msg]).

Definition st_messages (evs : list event) : list string :=
  omap (fun ev => match ev with EvStError m => Some m | _ => None end) evs.

Definition fs_events (evs : list event) : list event :=
  List.filter
    (fun ev => match ev with EvStError _ => false | _ => true end) evs.

(** [@st.cache_data]: a hit returns the stored value and replays the stored
    messages without running the body; a miss runs the body and stores its
    value unless it raised. *)
Definition st_cache_data {K A} `{Countable K}
    (get : Caches -> gmap K (A * list string))
    (set : gmap K (A * list string) -> Caches -> Caches)
    (key : K) (body : M A) : M A :=
  fun w c =>
    match get c !! key with
    | Some (v, msgs) => (Ok v, c, List.map EvStError msgs)
    | None =>
        match body w c with
        | (Ok v, c1, evs) =>
            (Ok v, set (<[key := (v, st_messages evs)]> (get c1)) c1, evs)
        | raised => raised
        end
    end.

Definition set_country_cache (m : gmap string (DataFrame * list string))
    (c : Caches) : Caches :=
  mkCaches m (all_cache c).

Definition set_all_cache (m : gmap (list string) (DataFrame * list string))
    (c : Caches) : Caches :=
  mkCaches (country_cache c) m.

(** ** os.path (POSIX) *)

Fixpoint endswith_sep (s : string) : bool :=
  match s with
  | EmptyString => false
  | String a EmptyString => Ascii.eqb a "/"%char
  | String _ s' => endswith_sep s'
  end.

Definition startswith_sep (s : string) : bool :=
  match s with
  | String a _ => Ascii.eqb a "/"%char
  | EmptyString => false
  end.

(** One step of [posixpath.join]. *)
Definition join_step (path b : string) : string :=
  if startswith_sep b then b
  else if String.eqb path "" || endswith_sep path then path +:+ b
  else path +:+ "/" +:+ b.

(** [os.path.join(a, *p)] *)
Definition os_path_join (a : string) (p : list string) : string :=
  fold_left join_step p a.

(** The operating system resolves a relative path against the working
    directory. *)
Definition abspath (w : World) (path : string) : string :=
  os_path_join (cwd w) [path].

(** [os.path.exists(path)] *)
Definition os_path_exists (path : string) : M bool :=
  fun w c =>
    (Ok (match fs w (abspath w path) with Some _ => true | None => false end),
     c, [EvExists path]).

(** ** pandas: read_csv, concat *)

Fixpoint remove_nth {A} (j : nat) (l : list A) : list A :=
  match l, j with
  | [], _ => []
  | _ :: l', O => l'
  | a :: l', S j' => a :: remove_nth j' l'
  end.

(** What [pd.read_csv(..., index_col=index_col, parse_dates=True)] makes of
    the file found: the named column becomes the index and leaves the
    columns; a header without that column raises. *)
Definition parse_file (path index_col : string) (f : option file)
    : result DataFrame :=
  match f with
  | None => Raise (FileNotFoundError path)
  | Some (Unreadable e) => Raise e
  | Some (Csv header records) =>
      match col_pos index_col header with
      | None => Raise (ValueError ("Index " +:+ index_col +:+ " invalid"))
      | Some j =>
          Ok (mkDataFrame (remove_nth j header)
                (List.map (fun r => (cell j r, remove_nth j r)) records))
      end
  end.

Definition pd_read_csv (path index_col : string) : M DataFrame :=
  fun w c =>
    (parse_file path index_col (fs w (abspath w path)), c, [EvReadCsv path]).

(** Union of column labels in order of first appearance. *)
Fixpoint union_columns (acc : list string) (dfs : list DataFrame) : list string :=
  match dfs with
  | [] => acc
  | df :: dfs' =>
      union_columns
        (acc ++ List.filter (fun c => negb (existsb (String.eqb c) acc))
                  (columns df))
        dfs'
  end.

(** Cells of a row laid out under other columns; a column the row lacks
    is [NaN]. *)
Definition reindex_cells (from to : list string) (cells : list value) : list value :=
  List.map
    (fun c => match col_pos c from with Some j => cell j cells | None => NaN end)
    to.

(** [pd.concat(dfs, ignore_index=False)]: rows and their index labels in
    order, columns joined outer; nothing to concatenate raises. *)
Definition pd_concat (dfs : list DataFrame) : result DataFrame :=
  match dfs with
  | [] => Raise (ValueError "No objects to concatenate")
  | _ =>
      let cols := union_columns [] dfs in
      Ok (mkDataFrame cols
            (flat_map
               (fun df =>
                  List.map
                    (fun r => (fst r, reindex_cells (columns df) cols (snd r)))
                    (rows df))
               dfs))
  end.

(** ** plotly express *)

Record Figure : Type := mkFigure {
  fig_x : list value;
  fig_y : list value;
  fig_color : list value;
  fig_title : string;
  fig_labels : list (string * string);
  fig_title_x : option Q
}.

(** A column argument of a plotly express call must name a column. *)
Definition px_column (df : DataFrame) (arg col : string) : result (list value) :=
  match col_pos col (columns df) with
  | Some j => Ok (List.map (fun r => cell j (snd r)) (rows df))
  | None =>
      Raise (ValueError ("Value of '" +:+ arg +:+
                         "' is not the name of a column in 'data_frame': " +:+ col))
  end.

(** [px.box(df, x=, y=, color=, title=, labels=)] *)
Definition px_box (df : DataFrame) (x y color title : string)
    (labels : list (string * string)) : result Figure :=
  xs ← px_column df "x" x;
  ys ← px_column df "y" y;
  cs ← px_column df "color" color;
  Ok (mkFigure xs ys cs title labels None).

(** [fig.update_layout(title_x=q)] *)
Definition update_layout_title_x (fig : Figure) (q : Q) : Figure :=
  mkFigure (fig_x fig) (fig_y fig) (fig_color fig) (fig_title fig)
    (fig_labels fig) (Some q).

(** ** pandas: groupby, mean, reset_index, rename *)

Definition is_nan (v : value) : bool :=
  match v with NaN => true | _ => false end.

Definition value_eqb (a b : value) : bool :=
  match a, b with
  | Num p, Num q => Qeq_bool p q
  | Str s, Str t => String.eqb s t
  | _, _ => false
  end.

(** Order of group keys: numbers before strings, strings by code point. *)
Definition value_leb (a b : value) : bool :=
  match a, b with
  | Num p, Num q => Qle_bool p q
  | Num _, _ => true
  | Str s, Str t => String.leb s t
  | Str _, NaN => true
  | Str _, Num _ => false
  | NaN, NaN => true
  | NaN, _ => false
  end.

(** Distinct values, each at its first occurrence. *)
Fixpoint unique (l : list value) : list value :=
  match l with
  | [] => []
  | v :: l' => v :: List.filter (fun u => negb (value_eqb v u)) (unique l')
  end.

Fixpoint insert_key (k : value) (l : list value) : list value :=
  match l with
  | [] => [k]
  | h :: t => if value_leb k h then k :: l else h :: insert_key k t
  end.

Definition sort_keys (l : list value) : list value :=
  fold_right insert_key [] l.

(** The numbers of a column, [NaN] skipped; a string cell raises. *)
Fixpoint numeric_cells (vals : list value) : result (list Q) :=
  match vals with
  | [] => Ok []
  | NaN :: vals' => numeric_cells vals'
  | Num q :: vals' => qs ← numeric_cells vals'; Ok (q :: qs)
  | Str _ :: _ => Raise (TypeError "Could not convert string to numeric")
  end.

Definition Qsum (qs : list Q) : Q := fold_right Qplus 0%Q qs.

(** Arithmetic mean; the mean of nothing is [NaN]. *)
Definition mean (qs : list Q) : value :=
  match qs with
  | [] => NaN
  | _ => Num (Qred (Qsum qs / inject_Z (Z.of_nat (length qs))))
  end.

(** [Series.mean()] with the default [skipna=True]. *)
Definition series_mean (vals : list value) : result value :=
  qs ← numeric_cells vals; Ok (mean qs).

(** The group keys of [df.groupby(by)]: distinct non-missing values of the
    column, sorted. *)
Definition group_keys (jb : nat) (df : DataFrame) : list value :=
  sort_keys
    (unique
       (List.filter (fun v => negb (is_nan v))
          (List.map (fun r => cell jb (snd r)) (rows df)))).

(** The cells of column [jc] in the rows whose key is [k]. *)
Definition group_cells (jb jc : nat) (df : DataFrame) (k : value) : list value :=
  List.map (fun r => cell jc (snd r))
    (List.filter (fun r => value_eqb k (cell jb (snd r))) (rows df)).

(** [df.groupby(by)[col].mean()] *)
Definition groupby_mean (df : DataFrame) (by_ col : string) : result Series :=
  match col_pos by_ (columns df) with
  | None => Raise (KeyError by_)
  | Some jb =>
      match col_pos col (columns df) with
      | None => Raise (KeyError ("Column not found: " +:+ col))
      | Some jc =>
          items ← rmapM
                    (fun k => m ← series_mean (group_cells jb jc df k); Ok (k, m))
                    (group_keys jb df);
          Ok (mkSeries col by_ items)
      end
  end.

(** [series.reset_index()]: the index becomes a column, the new index
    counts from zero. *)
Definition reset_index (s : Series) : DataFrame :=
  mkDataFrame [s_index_name s; s_name s]
    (combine (range_index (length (s_items s)))
       (List.map (fun it => [fst it; snd it]) (s_items s))).

(** [df.rename(columns=mapper, inplace=True)] *)
Definition df_rename (df : DataFrame) (mapper : gmap string string) : DataFrame :=
  mkDataFrame (List.map (fun c => default c (mapper !! c)) (columns df)) (rows df).

(** [df.index = df.index + n] *)
Definition label_add (n : Q) (l : value) : result value :=
  match l with
  | NaN => Ok NaN
  | Num q => Ok (Num (q + n))
  | Str _ => Raise (TypeError "can only concatenate str (not 'int') to str")
  end.

Definition df_index_add (df : DataFrame) (n : Q) : result DataFrame :=
  rs ← rmapM (fun r => l ← label_add n (fst r); Ok (l, snd r)) (rows df);
  Ok (mkDataFrame (columns df) rs).

(** ** app/utils.py *)

Definition filename_map : gmap string string :=
  <["Benin" := "benin_clean.csv"]>
    (<["Sierra Leone" := "sierraleone_clean.csv"]>
       (<["Togo" := "togo_clean.csv"]> ∅)).

(** [os.path.dirname(__file__)] *)
Definition dirname_file : M string := fun w c => (Ok (module_dir w), c, []).

(** The body of [load_country_data], below its decorator.  The two tests
    [if not filename] and [if file_path_to_load] are Python truth tests: a
    missing value and the empty string are both false. *)
Definition load_country_data_wrapped (country_name : string) : M DataFrame :=
  match filename_map !! country_name with
  | None => mret pd_DataFrame
  | Some filename =>
      if String.eqb filename "" then mret pd_DataFrame
      else
        here ← dirname_file;
        let data_dir_relative_to_app := os_path_join here [".."; "data"] in
        let file_path_relative := os_path_join data_dir_relative_to_app [filename] in
        let data_dir_from_root := "data" in
        let file_path_from_root := os_path_join data_dir_from_root [filename] in
        let not_found :=
          st_error ("Could not determine path for data file '" +:+ filename +:+
                    "'. Checked relative and root paths.");;
          mret pd_DataFrame in
        found_relative ← os_path_exists file_path_relative;
        file_path_to_load ←
          (if found_relative : bool then mret (Some file_path_relative)
           else
             found_root ← os_path_exists file_path_from_root;
             mret (if found_root : bool then Some file_path_from_root else None));
        match file_path_to_load with
        | None => not_found
        | Some path =>
            if String.eqb path "" then not_found
            else
              try_except
                (df ← pd_read_csv path "Timestamp";
                 mret (df_setitem df "Country" (Str country_name)))
                (fun e =>
                   match e with
                   | FileNotFoundError _ =>
                       st_error ("Error: Cleaned data file '" +:+ filename +:+
                                 "' not found at '" +:+ path +:+ "'.");;
                       mret pd_DataFrame
                   | _ =>
                       st_error ("Error loading data for " +:+ country_name +:+
                                 ": " +:+ exn_str e);;
                       mret pd_DataFrame
                   end)
        end
  end.

(** [load_country_data] as callers see it, under [@st.cache_data]. *)
Definition load_country_data (country_name : string) : M DataFrame :=
  st_cache_data country_cache set_country_cache country_name
    (load_country_data_wrapped country_name).

Definition default_country_list : list string :=
  ["Benin"; "Sierra Leone"; "Togo"].

(** The [for country in country_list] loop, [all_dfs] being the list
    built so far. *)
Fixpoint load_loop (country_list : list string) (all_dfs : list DataFrame)
    : M (list DataFrame) :=
  match country_list with
  | [] => mret all_dfs
  | country :: rest =>
      df ← load_country_data country;
      load_loop rest (if negb (df_empty df) then all_dfs ++ [df] else all_dfs)
  end.

(** The body of [load_all_countries_data], below its decorator. *)
Definition load_all_countries_data_wrapped (country_list : list string)
    : M DataFrame :=
  all_dfs ← load_loop country_list [];
  match all_dfs with
  | [] => mret pd_DataFrame
  | _ => lift (pd_concat all_dfs)
  end.

Definition load_all_countries_data (country_list : list string) : M DataFrame :=
  st_cache_data all_cache set_all_cache country_list
    (load_all_countries_data_wrapped country_list).

(** A Python [None] is [Ok None]. *)
Definition create_comparison_boxplot (df_combined : DataFrame)
    (metric title : string) : result (option Figure) :=
  if df_empty df_combined || negb (in_columns metric df_combined) then Ok None
  else
    fig ← px_box df_combined "Country" metric "Country" title
            [(metric, metric +:+ " (Units)")];
    Ok (Some (update_layout_title_x fig (1 # 2))).

Definition no_daytime_message : string :=
  "No daytime GHI data (GHI > 50 W/m^2) available for ranking.".

Definition ranking_column : string := "Average Daytime GHI (W/m²)".

Section Ranking.

(** [Series.sort_values(ascending=False)] with the default [kind].  The
    sort is the library's, not the program's: it is supplied here, and the
    statements say what they ask of it. *)
Variable sort_values_descending : list (value * value) -> list (value * value).

Definition create_ghi_ranking_table (df_combined : DataFrame)
    : result DataFrame :=
  if df_empty df_combined || negb (in_columns "GHI" df_combined)
  then Ok pd_DataFrame
  else
    ghi ← df_getitem df_combined "GHI";
    mask ← series_gt ghi 50;
    let df_daytime := df_mask df_combined mask in
    if df_empty df_daytime
    then Ok (pd_DataFrame_dict "Message" [Str no_daytime_message])
    else
      means ← groupby_mean df_daytime "Country" "GHI";
      let sorted :=
        mkSeries (s_name means) (s_index_name means)
          (sort_values_descending (s_items means)) in
      let avg_ghi := reset_index sorted in
      let avg_ghi := df_rename avg_ghi {[ "GHI" := ranking_column ]} in
      df_index_add avg_ghi 1.

End Ranking.

(** ** The descending sort

    [sort_values(ascending=False)] hands the values to pandas' [nargsort]
    (pandas/core/sorting.py).  For a descending order [nargsort] sets the
    missing values aside, reverses the others, asks numpy's [argsort] for
    the permutation that puts them in ascending order, reverses that
    permutation and puts the missing values last.

    What numpy's default [argsort] does with equal values depends on the
    length of the array.  Modelled here is what it does on the arrays the
    ranking of a combined table sorts, one value per entity and so at most
    [length default_country_list] values: the outcome of a sort by
    insertion, which goes through the array from the left and moves each
    value to the left past the values that are greater than it.
    [nargsort_descending] speaks for the library on arrays that short
    only. *)

Definition value_lt (a b : value) : bool :=
  match a, b with
  | Num p, Num q => negb (Qle_bool q p)
  | _, _ => false
  end.

(** One step of the insertion sort: [sorted] is in ascending order, and
    [it] comes to stand before the first item that is greater than it. *)
Fixpoint insert_ascending (it : value * value) (sorted : list (value * value))
    : list (value * value) :=
  match sorted with
  | [] => [it]
  | h :: t =>
      if value_lt (snd it) (snd h) then it :: sorted
      else h :: insert_ascending it t
  end.

(** The items in the order of the permutation [argsort] returns. *)
Definition argsort_short (items : list (value * value))
    : list (value * value) :=
  fold_left (fun sorted it => insert_ascending it sorted) items [].

Definition nargsort_descending (items : list (value * value))
    : list (value * value) :=
  let non_nans := List.filter (fun it => negb (is_nan (snd it))) items in
  let nans := List.filter (fun it => is_nan (snd it)) items in
  rev (argsort_short (rev non_nans)) ++ nans.

(** A second descending sort, used as a concrete sort where a statement
    holds for any: it inserts the items from the last to the first into a
    list kept in descending order, each before the items of equal value
    already placed. *)

Definition value_num_leb (a b : value) : bool :=
  match a, b with
  | Num p, Num q => Qle_bool p q
  | NaN, _ => true
  | _, _ => false
  end.

Fixpoint insert_before_equal (it : value * value) (l : list (value * value))
    : list (value * value) :=
  match l with
  | [] => [it]
  | h :: t =>
      if value_num_leb (snd h) (snd it) then it :: l
      else h :: insert_before_equal it t
  end.

Definition stable_sort_descending (items : list (value * value))
    : list (value * value) :=
  fold_right insert_before_equal [] items.

(** ** Vocabulary of the statements *)

(** The two places the loader looks for a file, as it builds them. *)
Definition candidate_relative (w : World) (filename : string) : string :=
  os_path_join (module_dir w) [".."; "data"; filename].

Definition candidate_root (filename : string) : string :=
  os_path_join "data" [filename].

Definition not_found_message (filename : string) : string :=
  "Could not determine path for data file '" +:+ filename +:+
  "'. Checked relative and root paths.".

(** What the loader does once it has settled on [path], after the events
    [pre]. *)
Definition after_read (name filename path : string) (w : World) (c : Caches)
    (pre : list event) : result DataFrame * Caches * list event :=
  match parse_file path "Timestamp" (fs w (abspath w path)) with
  | Ok df =>
      (Ok (df_setitem df "Country" (Str name)), c, pre ++ [EvReadCsv path])
  | Raise (FileNotFoundError m) =>
      (Ok pd_DataFrame, c,
       pre ++ [EvReadCsv path;
               EvStError ("Error: Cleaned data file '" +:+ filename +:+
                          "' not found at '" +:+ path +:+ "'.")])
  | Raise e =>
      (Ok pd_DataFrame, c,
       pre ++ [EvReadCsv path;
               EvStError ("Error loading data for " +:+ name +:+ ": " +:+
                          exn_str e)])
  end.

(** Every entry of the loader's cache was returned by the loader's body in
    some state of the files. *)
Definition country_cache_sound (c : Caches) : Prop :=
  forall name df msgs,
    country_cache c !! name = Some (df, msgs) ->
    exists w0 c0 evs,
      load_country_data_wrapped name w0 c0 = (Ok df, c0, evs) /\
      msgs = st_messages evs.

Definition all_cache_sound (c : Caches) : Prop :=
  forall country_list df msgs,
    all_cache c !! country_list = Some (df, msgs) ->
    exists w0 c0 c1 evs,
      load_all_countries_data_wrapped country_list w0 c0 = (Ok df, c1, evs) /\
      msgs = st_messages evs.

Definition caches_sound (c : Caches) : Prop :=
  country_cache_sound c /\ all_cache_sound c.

(** A call a page can make, and the cache left by a sequence of calls, each
    made in its own state of the files. *)
Inductive call : Type :=
| CallLoad (country_name : string)
| CallLoadAll (country_list : list string).

Definition run_call (w : World) (k : call) (c : Caches) : Caches :=
  match k with
  | CallLoad name => snd (fst (load_country_data name w c))
  | CallLoadAll l => snd (fst (load_all_countries_data l w c))
  end.

Definition run_calls (ks : list (World * call)) (c : Caches) : Caches :=
  fold_left (fun c wk => run_call (fst wk) (snd wk) c) ks c.

(** One call of [f] per element, in list order. *)
Fixpoint mapM {A B} (f : A -> M B) (l : list A) : M (list B) :=
  match l with
  | [] => mret []
  | a :: l' => b ← f a; bs ← mapM f l'; mret (b :: bs)
  end.

(** A small world: Benin's file sits next to the module, Togo's under the
    working directory, Sierra Leone's is missing. *)
Definition sample_world : World :=
  mkWorld "/srv/app" "/srv"
    (fun p =>
       if String.eqb p "/srv/app/../data/benin_clean.csv"
       then Some (Csv ["Timestamp"; "GHI"]
                    [[Str "2021-08-09 00:01"; Num 10];
                     [Str "2021-08-09 00:02"; Num 60]])
       else if String.eqb p "/srv/data/togo_clean.csv"
       then Some (Csv ["GHI"; "Timestamp"; "DNI"]
                    [[Num 80; Str "2021-10-25 00:01"; Num 7]])
       else None).

(** A world whose only file is there but cannot be parsed. *)
Definition broken_world : World :=
  mkWorld "/srv/app" "/srv"
    (fun p =>
       if String.eqb p "/srv/data/benin_clean.csv"
       then Some (Unreadable (OtherException "Error tokenizing data"))
       else None).

(** The test [value > threshold] on a cell, where it does not raise. *)
Definition exceeds (threshold : Q) (v : value) : bool :=
  match v with
  | Num q => negb (Qle_bool q threshold)
  | _ => false
  end.

Definition is_str (v : value) : bool :=
  match v with Str _ => true | _ => false end.

(** The rows whose cell in column [jg] is above 50. *)
Definition retained_rows (jg : nat) (df : DataFrame) : list (value * list value) :=
  List.filter (fun r => exceeds 50 (cell jg (snd r))) (rows df).

Definition numbers (vals : list value) : list Q :=
  flat_map (fun v => match v with Num q => [q] | _ => [] end) vals.

(** The numbers in column [jg] of the retained rows whose cell in column
    [jb] is the entity [c], and their arithmetic mean. *)
Definition entity_ghis (jb jg : nat) (df : DataFrame) (c : string) : list Q :=
  numbers
    (List.map (fun r => cell jg (snd r))
       (List.filter (fun r => value_eqb (Str c) (cell jb (snd r)))
          (retained_rows jg df))).

Definition entity_mean (jb jg : nat) (df : DataFrame) (c : string) : value :=
  mean (entity_ghis jb jg df c).

(** Following the spec's words rather than the code: one pass over the
    rows of the table, keeping the GHI of the rows of entity [c] whose GHI
    is a number strictly above 50. *)
Definition spec_ghis_above_50 (jb jg : nat) (df : DataFrame) (c : string)
    : list Q :=
  flat_map
    (fun r =>
       match cell jb (snd r), cell jg (snd r) with
       | Str c', Num q =>
           if decide (c' = c) then if Qlt_le_dec 50 q then [q] else [] else []
       | _, _ => []
       end)
    (rows df).

(** The (entity, mean) pairs of a ranking table, top first. *)
Definition ranking_entries (ranking : DataFrame) : list (value * value) :=
  List.map (fun r => (cell 0 (snd r), cell 1 (snd r))) (rows ranking).

(** The pairs the ranking sorts: one per group key, in the order groupby
    iterates over the keys. *)
Definition group_means (jb jg : nat) (df : DataFrame) : list (value * value) :=
  let daytime := mkDataFrame (columns df) (retained_rows jg df) in
  List.map (fun k => (k, mean (numbers (group_cells jb jg daytime k))))
    (group_keys jb daytime).

(** Index labels 1, 2, ..., n. *)
Definition ranks (n : nat) : list value :=
  List.map (fun i => Num (inject_Z (Z.of_nat (S i)))) (seq 0 n).

(** What pandas promises of [sort_values(ascending=False)] whatever the
    kind: the same items, numeric values in descending order. *)
Definition item_ge (a b : value * value) : Prop :=
  match snd a, snd b with
  | Num p, Num q => (q <= p)%Q
  | _, _ => False
  end.

(** An item whose value is a number. *)
Definition is_num_item (it : value * value) : Prop :=
  is_str (snd it) = false /\ is_nan (snd it) = false.

Definition sorts_descending
    (sort : list (value * value) -> list (value * value)) : Prop :=
  forall items,
    Permutation (sort items) items /\
    (Forall is_num_item items -> StronglySorted item_ge (sort items)).

(** The items of value [m]. *)
Definition has_value (m : Q) (it : value * value) : bool :=
  match snd it with
  | Num q => Qeq_bool q m
  | _ => false
  end.

(** The names of the entities, as they stand in the [Country] cells of a
    combined table. *)
Definition entity_names : list value := List.map Str default_country_list.

(** On an array that holds at most one value per entity, the sort supplied
    does what [nargsort] does. *)
Definition sorts_as_nargsort
    (sort : list (value * value) -> list (value * value)) : Prop :=
  forall items,
    (length items <= length default_country_list)%nat ->
    sort items = nargsort_descending items.

(** One entity with GHI 10, 60 and 80. *)
Definition sample_table : DataFrame :=
  mkDataFrame ["GHI"; "Country"]
    [(Str "2021-08-09 00:01", [Num 10; Str "X"]);
     (Str "2021-08-09 00:02", [Num 60; Str "X"]);
     (Str "2021-08-09 00:03", [Num 80; Str "X"])].

(** Benin and Togo both have the daytime mean 60, Sierra Leone is above
    them. *)
Definition tied_table : DataFrame :=
  mkDataFrame ["GHI"; "Country"]
    [(Str "2021-08-09 00:01", [Num 60; Str "Benin"]);
     (Str "2021-08-09 00:01", [Num 90; Str "Sierra Leone"]);
     (Str "2021-08-09 00:01", [Num 60; Str "Togo"]);
     (Str "2021-08-09 00:02", [Num 50; Str "Togo"]);
     (Str "2021-08-09 00:03", [Num 50; Str "Togo"])].

(** A table in which no reading is above 50. *)
Definition night_table : DataFrame :=
  mkDataFrame ["GHI"; "Country"]
    [(Str "2021-08-09 00:01", [Num 50; Str "Benin"]);
     (Str "2021-08-09 00:02", [NaN; Str "Togo"])].

(** A table with a metric but without the entity column. *)
Definition table_without_country : DataFrame :=
  mkDataFrame ["GHI"] [(Str "2021-08-09 00:01", [Num 60])].

(** A table is empty or has the entity column. *)
Definition carries_country (df : DataFrame) : Prop :=
  df = pd_DataFrame \/ In "Country" (columns df).

(** ** app/main.py: the metric selector of the comparison page *)

Definition metrics_available : list string :=
  ["GHI"; "DNI"; "DHI"; "Tamb"; "TModA"; "TModB"; "RH"; "WS"].

(** [[m for m in metrics_available if m in df_all_countries.columns]] *)
Definition metrics_present (df_all_countries : DataFrame) : list string :=
  List.filter (fun m => in_columns m df_all_countries) metrics_available.

(** [l.index(x)]: the first position of [x]; raises if [x] is not there. *)
Definition list_index (x : string) (l : list string) : result nat :=
  match col_pos x l with
  | Some i => Ok i
  | None => Raise (ValueError (x +:+ " is not in list"))
  end.

(** [metrics_present.index('GHI') if 'GHI' in metrics_present else 0], the
    [index] argument of the select box. *)
Definition default_metric_index (present : list string) : result nat :=
  if existsb (String.eqb "GHI") present then list_index "GHI" present
  else Ok 0%nat.

(** The call that draws the boxplot for the metric picked in the select
    box. *)
Definition main_boxplot (df_all_countries : DataFrame)
    (selected_metric_boxplot : string) : result (option Figure) :=
  create_comparison_boxplot df_all_countries selected_metric_boxplot
    (selected_metric_boxplot +:+ " Distribution by Country").

(** ** Vocabulary of the further statements *)

(** pandas hands over records that have one field per column label. *)
Definition file_aligned (f : file) : Prop :=
  match f with
  | Unreadable _ => True
  | Csv header records =>
      Forall (fun r => length r = length header) records
  end.

Definition world_aligned (w : World) : Prop :=
  forall path f, fs w path = Some f -> file_aligned f.

(** Every row has the entity [name] in its [Country] cell. *)
Definition stamped (name : string) (df : DataFrame) : Prop :=
  forall r, In r (rows df) ->
    exists j, col_pos "Country" (columns df) = Some j /\
              cell j (snd r) = Str name.

Definition caches_stamped (c : Caches) : Prop :=
  forall name df msgs,
    country_cache c !! name = Some (df, msgs) -> stamped name df.

(** Rows with one cell per column label, labels without repetition. *)
Definition df_aligned (df : DataFrame) : Prop :=
  List.NoDup (columns df) /\
  Forall (fun r => length (snd r) = length (columns df)) (rows df).

Definition count_reads (evs : list event) : nat :=
  length (List.filter
            (fun ev => match ev with EvReadCsv _ => true | _ => false end) evs).

Definition count_exists (evs : list event) : nat :=
  length (List.filter
            (fun ev => match ev with EvExists _ => true | _ => false end) evs).

(** A world in which no file exists, and one in which Benin's file has a
    header and no record. *)
Definition empty_world : World :=
  mkWorld "/srv/app" "/srv" (fun _ => None).

Definition header_only_world : World :=
  mkWorld "/srv/app" "/srv"
    (fun p =>
       if String.eqb p "/srv/data/benin_clean.csv"
       then Some (Csv ["Timestamp"; "GHI"] [])
       else None).

(** A table with a string in its GHI column. *)
Definition text_table : DataFrame :=
  mkDataFrame ["GHI"; "Country"]
    [(Str "2021-08-09 00:01", [Num 60; Str "Benin"]);
     (Str "2021-08-09 00:02", [Str "n/a"; Str "Benin"])].

(** The path the loader settles on: the first of its two candidates at
    which something exists. *)
Definition resolved_path (w : World) (filename : string) : option string :=
  match fs w (abspath w (candidate_relative w filename)) with
  | Some _ => Some (candidate_relative w filename)
  | None =>
      match fs w (abspath w (candidate_root filename)) with
      | Some _ => Some (candidate_root filename)
      | None => None
      end
  end.

(** * Properties *)

Arguments abspath : simpl never.
Arguments parse_file : simpl never.

Ltac unfold_M :=
  unfold mbind, mret, M_bind, M_ret, bind, ret, try_except, st_error,
    os_path_exists, pd_read_csv, dirname_file, lift in *.

(** ** The loader *)

Lemma filename_map_lookup name :
  filename_map !! name =
    if decide (name = "Benin") then Some "benin_clean.csv"
    else if decide (name = "Sierra Leone") then Some "sierraleone_clean.csv"
    else if decide (name = "Togo") then Some "togo_clean.csv"
    else None.
Proof.
  unfold filename_map.
  repeat (rewrite lookup_insert; case_decide; subst;
          [ repeat case_decide; congruence |]).
  rewrite lookup_empty. repeat case_decide; congruence.
Qed.

Lemma append_nonempty a b : b <> "" -> String.eqb (a +:+ b) "" = false.
Proof.
  intros Hb. apply String.eqb_neq. destruct a; simpl; [ exact Hb | discriminate ].
Qed.

Lemma join_step_nonempty p b : b <> "" -> String.eqb (join_step p b) "" = false.
Proof.
  intros Hb. unfold join_step.
  destruct (startswith_sep b).
  - now apply String.eqb_neq.
  - destruct (_ || _).
    + now apply append_nonempty.
    + apply append_nonempty. destruct b; [ congruence | discriminate ].
Qed.

Lemma known_filename_nonempty name filename :
  filename_map !! name = Some filename -> filename <> "".
Proof.
  rewrite filename_map_lookup.
  repeat case_decide; intros Heq; inversion Heq; discriminate.
Qed.

(** The body of the loader, run symbolically. *)
Lemma loader_body_run name filename w c :
  filename_map !! name = Some filename ->
  load_country_data_wrapped name w c =
    let p1 := candidate_relative w filename in
    let p2 := candidate_root filename in
    match fs w (abspath w p1) with
    | Some _ => after_read name filename p1 w c [EvExists p1]
    | None =>
        match fs w (abspath w p2) with
        | Some _ => after_read name filename p2 w c [EvExists p1; EvExists p2]
        | None =>
            (Ok pd_DataFrame, c,
             [EvExists p1; EvExists p2; EvStError (not_found_message filename)])
        end
    end.
Proof.
  intros Hf.
  pose proof (known_filename_nonempty _ _ Hf) as Hne.
  unfold load_country_data_wrapped. rewrite Hf.
  destruct (String.eqb filename "") eqn:E;
    [ apply String.eqb_eq in E; congruence |].
  unfold candidate_relative, candidate_root.
  change (os_path_join (module_dir w) [".."; "data"; filename])
    with (os_path_join (os_path_join (module_dir w) [".."; "data"]) [filename]).
  unfold_M. unfold after_read. cbv beta zeta.
  set (p1 := os_path_join (os_path_join (module_dir w) [".."; "data"]) [filename]).
  set (p2 := os_path_join "data" [filename]).
  assert (H1 : String.eqb p1 "" = false) by (apply join_step_nonempty; exact Hne).
  assert (H2 : String.eqb p2 "" = false) by (apply join_step_nonempty; exact Hne).
  clearbody p1 p2.
  destruct (fs w (abspath w p1)) as [f1|] eqn:F1; cbv beta iota.
  - rewrite H1, F1.
    destruct (parse_file _ "Timestamp" (Some f1)) as [df|[]]; reflexivity.
  - destruct (fs w (abspath w p2)) as [f2|] eqn:F2; cbv beta iota.
    + rewrite H2, F2.
      destruct (parse_file _ "Timestamp" (Some f2)) as [df|[]]; reflexivity.
    + reflexivity.
Qed.

Lemma loader_body_unknown name w c :
  filename_map !! name = None ->
  load_country_data_wrapped name w c = (Ok pd_DataFrame, c, []).
Proof. intros H. unfold load_country_data_wrapped. now rewrite H. Qed.

Lemma after_read_ok name filename path w c pre :
  exists df evs, after_read name filename path w c pre = (Ok df, c, evs).
Proof.
  unfold after_read.
  destruct (parse_file _ _ _) as [df|[]]; eauto.
Qed.

(** The body returns a table and leaves the caches alone. *)
Lemma loader_body_ok name w c :
  exists df evs, load_country_data_wrapped name w c = (Ok df, c, evs).
Proof.
  destruct (filename_map !! name) as [filename|] eqn:Hf.
  - rewrite (loader_body_run _ _ _ _ Hf). cbv zeta.
    destruct (fs w _).
    + apply after_read_ok.
    + destruct (fs w _); [ apply after_read_ok | eauto ].
  - rewrite (loader_body_unknown _ _ _ Hf). eauto.
Qed.

(** The body does not read the caches. *)
Lemma loader_body_caches name w c c0 df evs :
  load_country_data_wrapped name w c = (Ok df, c, evs) ->
  load_country_data_wrapped name w c0 = (Ok df, c0, evs).
Proof.
  destruct (filename_map !! name) as [filename|] eqn:Hf.
  - rewrite !(loader_body_run _ _ _ _ Hf). cbv zeta. unfold after_read.
    repeat match goal with
           | |- context [match ?x with _ => _ end] => destruct x
           end; intros Hrun; inversion Hrun; reflexivity.
  - rewrite !(loader_body_unknown _ _ _ Hf).
    intros Hrun; inversion Hrun; reflexivity.
Qed.

(** *** The decorator *)

Lemma load_country_data_hit name w c df msgs :
  country_cache c !! name = Some (df, msgs) ->
  load_country_data name w c = (Ok df, c, List.map EvStError msgs).
Proof.
  intros H. unfold load_country_data, st_cache_data. now rewrite H.
Qed.

Lemma load_country_data_miss name w c :
  country_cache c !! name = None ->
  exists df evs,
    load_country_data_wrapped name w c = (Ok df, c, evs) /\
    load_country_data name w c =
      (Ok df,
       set_country_cache (<[name := (df, st_messages evs)]> (country_cache c)) c,
       evs).
Proof.
  intros H. destruct (loader_body_ok name w c) as (df & evs & Hb).
  exists df, evs. split; [ exact Hb |].
  unfold load_country_data, st_cache_data. now rewrite H, Hb.
Qed.

Lemma load_country_data_ok name w c :
  exists df c' evs, load_country_data name w c = (Ok df, c', evs).
Proof.
  destruct (country_cache c !! name) as [[df msgs]|] eqn:Hc.
  - rewrite (load_country_data_hit _ _ _ _ _ Hc). eauto.
  - destruct (load_country_data_miss name w c Hc) as (df & evs & _ & ->). eauto.
Qed.

Lemma no_caches_sound : caches_sound no_caches.
Proof.
  split; intros k df msgs H; simpl in H; now rewrite lookup_empty in H.
Qed.

(** *** Paths *)

Lemma append_cons x (a b : string) : String x a +:+ b = String x (a +:+ b).
Proof. reflexivity. Qed.

Lemma append_empty_inv (a b : string) : a +:+ b = "" -> b = "".
Proof. destruct a; [ trivial | rewrite append_cons; discriminate ]. Qed.

Lemma endswith_sep_append a b :
  b <> "" -> endswith_sep (a +:+ b) = endswith_sep b.
Proof.
  intros Hb. induction a as [|x a IH]; [ reflexivity |].
  rewrite append_cons. cbn [endswith_sep].
  destruct (a +:+ b) eqn:E.
  - apply append_empty_inv in E. congruence.
  - exact IH.
Qed.

Lemma append_assoc (a b c : string) : (a +:+ b) +:+ c = a +:+ (b +:+ c).
Proof.
  induction a as [|x a IH]; [ reflexivity |].
  now rewrite !append_cons, IH.
Qed.

Lemma candidate_root_known name filename :
  filename_map !! name = Some filename ->
  candidate_root filename = "data/" +:+ filename.
Proof.
  rewrite filename_map_lookup.
  repeat case_decide; intros Heq; inversion Heq; reflexivity.
Qed.

Lemma candidate_relative_literal name filename w :
  filename_map !! name = Some filename ->
  module_dir w <> "" -> endswith_sep (module_dir w) = false ->
  candidate_relative w filename = module_dir w +:+ "/../data/" +:+ filename.
Proof.
  intros Hf Hne Hsep. unfold candidate_relative, os_path_join. cbn [fold_left].
  assert (Hd : String.eqb (module_dir w) "" = false) by now apply String.eqb_neq.
  assert (H1 : join_step (module_dir w) ".." = module_dir w +:+ "/..").
  { unfold join_step. cbn [startswith_sep Ascii.eqb Bool.eqb].
    now rewrite Hd, Hsep. }
  rewrite H1.
  assert (H2 : join_step (module_dir w +:+ "/..") "data"
               = module_dir w +:+ "/../data").
  { unfold join_step. cbn [startswith_sep Ascii.eqb Bool.eqb].
    rewrite append_nonempty by discriminate.
    rewrite endswith_sep_append by discriminate. cbn [endswith_sep orb].
    cbn. rewrite !append_assoc. reflexivity. }
  rewrite H2.
  rewrite filename_map_lookup in Hf.
  repeat case_decide; inversion Hf; subst; unfold join_step;
    cbn [startswith_sep Ascii.eqb Bool.eqb];
    rewrite append_nonempty by discriminate;
    rewrite endswith_sep_append by discriminate; cbn;
    rewrite !append_assoc; reflexivity.
Qed.

Lemma abspath_candidate_root name filename w :
  filename_map !! name = Some filename ->
  abspath w (candidate_root filename) = os_path_join (cwd w) ["data"; filename].
Proof.
  intros Hf. rewrite (candidate_root_known _ _ Hf).
  unfold abspath, os_path_join. cbn [fold_left].
  assert (Hs : startswith_sep filename = false).
  { rewrite filename_map_lookup in Hf.
    repeat case_decide; inversion Hf; reflexivity. }
  assert (Hne : filename <> "") by (eapply known_filename_nonempty; eauto).
  unfold join_step at 1 2. rewrite Hs.
  change (startswith_sep ("data/" +:+ filename)) with false. cbv iota.
  unfold join_step. cbn [startswith_sep Ascii.eqb Bool.eqb].
  destruct (String.eqb (cwd w) "" || endswith_sep (cwd w)).
  - rewrite append_nonempty by discriminate.
    rewrite endswith_sep_append by discriminate. cbn [endswith_sep orb].
    cbn. rewrite !append_assoc. reflexivity.
  - rewrite append_nonempty by discriminate.
    rewrite endswith_sep_append by discriminate. cbn [endswith_sep orb].
    cbn. rewrite !append_assoc. reflexivity.
Qed.

(** C5.  For every entity name other than Benin, Sierra Leone and Togo the
    loader returns the empty table, raises nothing and emits no event at
    all, so it neither tests nor reads any path.  This holds for the body
    of the loader in every state, and for the decorated loader whenever the
    entries of its cache come from earlier runs of the body. *)
Theorem unknown_entity_loads_empty (name : string) (w : World) (c : Caches) :
  name <> "Benin" -> name <> "Sierra Leone" -> name <> "Togo" ->
  load_country_data_wrapped name w c = (Ok pd_DataFrame, c, []) /\
  (country_cache_sound c ->
   exists c', load_country_data name w c = (Ok pd_DataFrame, c', [])).
Proof.
  intros H1 H2 H3.
  assert (Hf : filename_map !! name = None).
  { rewrite filename_map_lookup. repeat case_decide; congruence. }
  split; [ now apply loader_body_unknown |].
  intros Hsound.
  destruct (country_cache c !! name) as [[df msgs]|] eqn:Hc.
  - destruct (Hsound _ _ _ Hc) as (w0 & c0 & evs & Hb & ->).
    rewrite (loader_body_unknown _ _ _ Hf) in Hb. inversion Hb; subst.
    exists c. now rewrite (load_country_data_hit _ _ _ _ _ Hc).
  - destruct (load_country_data_miss name w c Hc) as (df & evs & Hb & ->).
    rewrite (loader_body_unknown _ _ _ Hf) in Hb. inversion Hb; subst. eauto.
Qed.

Lemma unknown_entity_loads_empty_witness :
  load_country_data_wrapped "Atlantis" sample_world no_caches
    = (Ok pd_DataFrame, no_caches, []) /\
  exists c', load_country_data "Atlantis" sample_world no_caches
             = (Ok pd_DataFrame, c', []).
Proof.
  destruct (unknown_entity_loads_empty "Atlantis" sample_world no_caches)
    as [Hbody Hdecorated]; try discriminate.
  split; [ exact Hbody | apply Hdecorated, no_caches_sound ].
Defined.

(** C6.  For a known entity the file name is the one of the fixed table;
    the loader first tests the path built from the module's directory,
    [..], [data] and the file name, and only if nothing is there the path
    [data/<file name>], which the system resolves under the working
    directory.  It reads the first of the two that exists and no other
    path; a table parsed from it is returned with the entity stamped on
    it.  If neither exists it returns the empty table after an error
    message on the page. *)
Theorem file_resolution_order (name filename : string) (w : World) (c : Caches) :
  filename_map !! name = Some filename ->
  let p1 := candidate_relative w filename in
  let p2 := candidate_root filename in
  ((name, filename) = ("Benin", "benin_clean.csv") \/
   (name, filename) = ("Sierra Leone", "sierraleone_clean.csv") \/
   (name, filename) = ("Togo", "togo_clean.csv")) /\
  (module_dir w <> "" -> endswith_sep (module_dir w) = false ->
   p1 = module_dir w +:+ "/../data/" +:+ filename) /\
  p2 = "data/" +:+ filename /\
  abspath w p2 = os_path_join (cwd w) ["data"; filename] /\
  exists df evs,
    load_country_data_wrapped name w c = (Ok df, c, evs) /\
    match fs w (abspath w p1), fs w (abspath w p2) with
    | Some _, _ =>
        fs_events evs = [EvExists p1; EvReadCsv p1] /\
        forall df0,
          parse_file p1 "Timestamp" (fs w (abspath w p1)) = Ok df0 ->
          df = df_setitem df0 "Country" (Str name) /\ st_messages evs = []
    | None, Some _ =>
        fs_events evs = [EvExists p1; EvExists p2; EvReadCsv p2] /\
        forall df0,
          parse_file p2 "Timestamp" (fs w (abspath w p2)) = Ok df0 ->
          df = df_setitem df0 "Country" (Str name) /\ st_messages evs = []
    | None, None =>
        df = pd_DataFrame /\
        evs = [EvExists p1; EvExists p2; EvStError (not_found_message filename)]
    end.
Proof.
  intros Hf p1 p2.
  split.
  { rewrite filename_map_lookup in Hf.
    repeat case_decide; inversion Hf; subst; auto. }
  split; [ intros; eapply candidate_relative_literal; eauto |].
  split; [ eapply candidate_root_known; eauto |].
  split; [ eapply abspath_candidate_root; eauto |].
  rewrite (loader_body_run _ _ _ _ Hf). cbv zeta. fold p1 p2.
  unfold after_read.
  destruct (fs w (abspath w p1)) as [f1|].
  - destruct (parse_file p1 _ _) as [df1|[]];
      eexists _, _; (split; [ reflexivity |]);
      (split; [ reflexivity | intros df0 Heq; inversion Heq; subst; auto ]).
  - destruct (fs w (abspath w p2)) as [f2|].
    + destruct (parse_file p2 _ _) as [df2|[]];
        eexists _, _; (split; [ reflexivity |]);
        (split; [ reflexivity | intros df0 Heq; inversion Heq; subst; auto ]).
    + eexists _, _. split; [ reflexivity | split; reflexivity ].
Qed.

Lemma file_resolution_order_witness :
  exists df,
    load_country_data_wrapped "Togo" sample_world no_caches
    = (Ok df, no_caches,
       [EvExists "/srv/app/../data/togo_clean.csv";
        EvExists "data/togo_clean.csv"; EvReadCsv "data/togo_clean.csv"]).
Proof.
  destruct (file_resolution_order "Togo" "togo_clean.csv" sample_world no_caches)
    as (_ & _ & _ & _ & df & evs & Hrun & _); [ reflexivity |].
  exists df. rewrite Hrun. vm_compute in Hrun.
  inversion Hrun. reflexivity.
Defined.

(** C7.  The loader never raises, for any entity name and whatever is
    stored at the paths: the decorated loader and its body always return a
    table.  When the read that the body attempted raised (the file is
    unreadable or malformed, or it has no [Timestamp] column), the body
    returns the empty table and puts an error message on the page. *)
Theorem loader_never_raises (name : string) (w : World) (c : Caches) :
  (exists df c' evs, load_country_data name w c = (Ok df, c', evs)) /\
  (exists df evs,
     load_country_data_wrapped name w c = (Ok df, c, evs) /\
     forall path e,
       In (EvReadCsv path) evs ->
       parse_file path "Timestamp" (fs w (abspath w path)) = Raise e ->
       df = pd_DataFrame /\ exists msg, In (EvStError msg) evs).
Proof.
  split; [ apply load_country_data_ok |].
  destruct (filename_map !! name) as [filename|] eqn:Hf.
  - rewrite (loader_body_run _ _ _ _ Hf). cbv zeta. unfold after_read.
    set (p1 := candidate_relative w filename).
    set (p2 := candidate_root filename). clearbody p1 p2.
    destruct (fs w (abspath w p1)) as [f1|] eqn:F1.
    + destruct (parse_file p1 _ _) as [df1|e1] eqn:P1.
      * eexists _, _. split; [ reflexivity |].
        intros path e Hin Hp. cbn in Hin.
        destruct Hin as [Hin|[Hin|[]]]; inversion Hin; subst.
        rewrite F1 in Hp. congruence.
      * destruct e1; eexists _, _; (split; [ reflexivity |]);
          intros path e Hin Hp; (split; [ reflexivity |]);
          eexists; cbn; eauto.
    + destruct (fs w (abspath w p2)) as [f2|] eqn:F2.
      * destruct (parse_file p2 _ _) as [df2|e2] eqn:P2.
        -- eexists _, _. split; [ reflexivity |].
           intros path e Hin Hp. cbn in Hin.
           destruct Hin as [Hin|[Hin|[Hin|[]]]]; inversion Hin; subst.
           rewrite F2 in Hp. congruence.
        -- destruct e2; eexists _, _; (split; [ reflexivity |]);
             intros path e Hin Hp; (split; [ reflexivity |]);
             eexists; cbn; eauto.
      * eexists _, _. split; [ reflexivity |].
        intros path e Hin Hp. split; [ reflexivity |].
        eexists; cbn; eauto.
  - rewrite (loader_body_unknown _ _ _ Hf).
    eexists _, _. split; [ reflexivity |]. intros path e [].
Qed.

Lemma loader_never_raises_witness :
  exists evs msg,
    load_country_data_wrapped "Benin" broken_world no_caches
    = (Ok pd_DataFrame, no_caches, evs) /\ In (EvStError msg) evs.
Proof.
  destruct (loader_never_raises "Benin" broken_world no_caches)
    as (_ & df & evs & Hrun & Hfail).
  destruct (Hfail "data/benin_clean.csv" (OtherException "Error tokenizing data"))
    as (-> & msg & Hmsg).
  - rewrite (loader_body_run "Benin" "benin_clean.csv") in Hrun by reflexivity.
    vm_compute in Hrun. inversion Hrun. cbn. auto.
  - reflexivity.
  - exists evs, msg. split; [ exact Hrun | exact Hmsg ].
Defined.

(** ** The cache *)

Lemma st_messages_replay msgs : st_messages (List.map EvStError msgs) = msgs.
Proof.
  unfold st_messages.
  induction msgs as [|m msgs IH]; cbn; [ reflexivity | now rewrite IH ].
Qed.

Lemma fs_events_replay msgs : fs_events (List.map EvStError msgs) = [].
Proof. induction msgs as [|m msgs IH]; cbn; [ reflexivity | exact IH ]. Qed.

(** A call of the loader keeps every entry the caches already hold. *)
Lemma load_country_data_keeps name w c :
  forall r c' evs, load_country_data name w c = (r, c', evs) ->
  all_cache c' = all_cache c /\
  forall k e, country_cache c !! k = Some e -> country_cache c' !! k = Some e.
Proof.
  intros r c' evs Hrun.
  destruct (country_cache c !! name) as [[df msgs]|] eqn:Hc.
  - rewrite (load_country_data_hit _ _ _ _ _ Hc) in Hrun.
    inversion Hrun; subst. auto.
  - destruct (load_country_data_miss name w c Hc) as (df & evs' & _ & Hd).
    rewrite Hd in Hrun. inversion Hrun; subst. split; [ reflexivity |].
    intros k e Hk. cbn. rewrite lookup_insert_ne; [ exact Hk | congruence ].
Qed.

Lemma load_loop_keeps country_list :
  forall all_dfs w c r c' evs,
    load_loop country_list all_dfs w c = (r, c', evs) ->
    all_cache c' = all_cache c /\
    forall k e, country_cache c !! k = Some e -> country_cache c' !! k = Some e.
Proof.
  induction country_list as [|country rest IH]; intros all_dfs w c r c' evs Hrun.
  - inversion Hrun; subst. auto.
  - cbn [load_loop] in Hrun. unfold_M.
    destruct (load_country_data country w c) as [[r1 c1] ev1] eqn:H1.
    destruct (load_country_data_keeps _ _ _ _ _ _ H1) as [Ha1 Hk1].
    destruct r1 as [df|e1].
    + destruct (load_loop rest _ w c1) as [[r2 c2] ev2] eqn:H2.
      destruct (IH _ _ _ _ _ _ H2) as [Ha2 Hk2].
      inversion Hrun; subst. split; [ congruence | auto ].
    + inversion Hrun; subst. auto.
Qed.

Lemma load_all_wrapped_keeps country_list w c r c' evs :
  load_all_countries_data_wrapped country_list w c = (r, c', evs) ->
  all_cache c' = all_cache c /\
  forall k e, country_cache c !! k = Some e -> country_cache c' !! k = Some e.
Proof.
  unfold load_all_countries_data_wrapped. unfold_M. intros Hrun.
  destruct (load_loop country_list [] w c) as [[r1 c1] ev1] eqn:H1.
  destruct (load_loop_keeps _ _ _ _ _ _ _ H1) as [Ha Hk].
  destruct r1 as [[|df dfs]|e]; inversion Hrun; subst; auto.
Qed.

Lemma load_all_keeps country_list w c r c' evs :
  load_all_countries_data country_list w c = (r, c', evs) ->
  (forall k e, all_cache c !! k = Some e -> all_cache c' !! k = Some e) /\
  (forall k e, country_cache c !! k = Some e -> country_cache c' !! k = Some e).
Proof.
  unfold load_all_countries_data, st_cache_data. intros Hrun.
  destruct (all_cache c !! country_list) as [[df msgs]|] eqn:Hc.
  - inversion Hrun; subst. auto.
  - destruct (load_all_countries_data_wrapped country_list w c)
      as [[r1 c1] ev1] eqn:H1.
    destruct (load_all_wrapped_keeps _ _ _ _ _ _ H1) as [Ha Hk].
    destruct r1 as [df|e]; inversion Hrun; subst; cbn.
    + split; [| exact Hk ].
      intros k e Hke. rewrite Ha.
      rewrite lookup_insert_ne; [ exact Hke | congruence ].
    + split; [ intros k e' Hke; now rewrite Ha | exact Hk ].
Qed.

Lemma run_calls_keeps ks :
  forall c k e,
    country_cache c !! k = Some e ->
    country_cache (run_calls ks c) !! k = Some e.
Proof.
  induction ks as [|[w [name|l]] ks IH]; intros c k e Hk; [ exact Hk | |].
  - apply IH. cbn.
    destruct (load_country_data name w c) as [[r c'] evs] eqn:Hrun.
    now apply (load_country_data_keeps _ _ _ _ _ _ Hrun).
  - apply IH. cbn.
    destruct (load_all_countries_data l w c) as [[r c'] evs] eqn:Hrun.
    now apply (load_all_keeps _ _ _ _ _ _ Hrun).
Qed.

(** C9.  A call of the loader leaves an entry for its entity in the cache.
    From then on, after any further calls of the loader and the aggregator
    and whatever happens to the files, a call for the same entity returns
    the same table, leaves the cache as it is and only replays the page
    messages of the first call: it tests no path and reads no file.  The
    call that follows at once is the case of no calls in between. *)
Theorem cached_load_is_computed_once (name : string) (w : World) (c : Caches) :
  exists df c1 evs1,
    load_country_data name w c = (Ok df, c1, evs1) /\
    (forall w',
       load_country_data name w' c1
       = (Ok df, c1, List.map EvStError (st_messages evs1))) /\
    (forall ks w',
       load_country_data name w' (run_calls ks c1)
       = (Ok df, run_calls ks c1, List.map EvStError (st_messages evs1))) /\
    fs_events (List.map EvStError (st_messages evs1)) = [].
Proof.
  assert (Hentry : exists df c1 evs1,
             load_country_data name w c = (Ok df, c1, evs1) /\
             country_cache c1 !! name = Some (df, st_messages evs1)).
  { destruct (country_cache c !! name) as [[df msgs]|] eqn:Hc.
    - exists df, c, (List.map EvStError msgs).
      rewrite st_messages_replay. split; [| exact Hc ].
      now apply load_country_data_hit.
    - destruct (load_country_data_miss name w c Hc) as (df & evs & _ & Hd).
      eexists df, _, evs. split; [ exact Hd |]. cbn. apply lookup_insert_eq. }
  destruct Hentry as (df & c1 & evs1 & Hrun & Hc1).
  exists df, c1, evs1. split; [ exact Hrun |].
  split; [| split ].
  - intros w'. now apply load_country_data_hit.
  - intros ks w'. apply load_country_data_hit. now apply run_calls_keeps.
  - apply fs_events_replay.
Qed.

(** ** The aggregator *)

Lemma mapM_load_ok country_list :
  forall w c, exists dfs c' evs,
    mapM load_country_data country_list w c = (Ok dfs, c', evs) /\
    length dfs = length country_list.
Proof.
  induction country_list as [|country rest IH]; intros w c.
  - exists [], c, []. split; reflexivity.
  - cbn [mapM]. unfold_M.
    destruct (load_country_data_ok country w c) as (df & c1 & ev1 & ->).
    destruct (IH w c1) as (dfs & c2 & ev2 & -> & Hlen).
    eexists _, _, _. split; [ reflexivity |]. cbn. now rewrite Hlen.
Qed.

(** The loop is one call of the loader per entity, in list order, keeping
    the tables that are not empty. *)
Lemma load_loop_mapM country_list :
  forall all_dfs w c,
    load_loop country_list all_dfs w c
    = (dfs ← mapM load_country_data country_list;
       mret (all_dfs ++ List.filter (fun df => negb (df_empty df)) dfs)) w c.
Proof.
  induction country_list as [|country rest IH]; intros all_dfs w c.
  - cbn. unfold_M. now rewrite app_nil_r.
  - cbn [load_loop mapM]. unfold_M.
    destruct (load_country_data country w c) as [[[df|e] c1] ev1]; [| reflexivity ].
    rewrite IH. unfold_M.
    destruct (mapM load_country_data rest w c1) as [[[dfs|e] c2] ev2].
    + cbn [List.filter]. rewrite !app_nil_r.
      destruct (negb (df_empty df)); [ now rewrite <- app_assoc | reflexivity ].
    + now rewrite ?app_nil_r.
Qed.

Lemma col_pos_Some col cols j :
  col_pos col cols = Some j -> nth_error cols j = Some col.
Proof.
  revert j. induction cols as [|c cols IH]; intros j H; [ discriminate |].
  cbn in H. destruct (String.eqb col c) eqn:E.
  - apply String.eqb_eq in E. inversion H; subst. reflexivity.
  - destruct (col_pos col cols) as [i|]; [| discriminate ].
    inversion H; subst. cbn. now apply IH.
Qed.

Lemma col_pos_In col cols :
  In col cols -> exists j, col_pos col cols = Some j.
Proof.
  induction cols as [|c cols IH]; intros H; [ destruct H |].
  cbn. destruct (String.eqb col c) eqn:E; [ eauto |].
  destruct H as [->|H]; [ rewrite String.eqb_refl in E; discriminate |].
  destruct (IH H) as [j ->]. cbn. eauto.
Qed.

Lemma col_pos_None col cols :
  col_pos col cols = None -> ~ In col cols.
Proof.
  intros H Hin. destruct (col_pos_In _ _ Hin) as [j Hj]. congruence.
Qed.

Lemma in_columns_true col df :
  in_columns col df = true <-> In col (columns df).
Proof.
  unfold in_columns. rewrite existsb_exists. split.
  - intros (c & Hin & E). apply String.eqb_eq in E. now subst.
  - intros Hin. exists col. split; [ exact Hin | apply String.eqb_refl ].
Qed.

Lemma union_columns_acc dfs :
  forall acc col, In col acc -> In col (union_columns acc dfs).
Proof.
  induction dfs as [|df dfs IH]; intros acc col H; [ exact H |].
  cbn. apply IH. apply in_or_app. now left.
Qed.

Lemma union_columns_incl dfs :
  forall acc df col,
    In df dfs -> In col (columns df) -> In col (union_columns acc dfs).
Proof.
  induction dfs as [|d dfs IH]; intros acc df col Hdf Hcol; [ destruct Hdf |].
  cbn. destruct Hdf as [->|Hdf]; [| now apply (IH _ df) ].
  apply union_columns_acc.
  destruct (existsb (String.eqb col) acc) eqn:E.
  - apply existsb_exists in E. destruct E as (c' & Hin & E).
    apply String.eqb_eq in E. subst. apply in_or_app. now left.
  - apply in_or_app. right. apply filter_In. split; [ exact Hcol |].
    now rewrite E.
Qed.

(** Under the columns of the combined table, a cell of a row sits below its
    own column label. *)
Lemma reindex_cells_cell from to cells col i :
  col_pos col to = Some i ->
  cell i (reindex_cells from to cells)
  = match col_pos col from with Some j => cell j cells | None => NaN end.
Proof.
  intros H. apply col_pos_Some in H. unfold cell at 1, reindex_cells.
  revert i H. induction to as [|c to IH]; intros [|i] H; try discriminate.
  - inversion H; subst. reflexivity.
  - cbn. now apply IH.
Qed.

Lemma concat_index cols dfs :
  List.map fst
    (flat_map
       (fun df =>
          List.map (fun r => (fst r, reindex_cells (columns df) cols (snd r)))
            (rows df))
       dfs)
  = flat_map df_index dfs.
Proof.
  induction dfs as [|df dfs IH]; [ reflexivity |].
  cbn [flat_map]. rewrite map_app, IH. f_equal.
  unfold df_index. rewrite map_map. reflexivity.
Qed.

Lemma filter_nil_Forall {A} (f : A -> bool) l :
  Forall (fun x => f x = false) l -> List.filter f l = [].
Proof.
  induction 1 as [|x l Hx _ IH]; [ reflexivity |]. cbn. now rewrite Hx.
Qed.

(** The loader keeps the records of the file in their order, each under
    the label found in its [Timestamp] field. *)
Lemma loaded_index_in_file_order path header records df0 j name :
  col_pos "Timestamp" header = Some j ->
  parse_file path "Timestamp" (Some (Csv header records)) = Ok df0 ->
  df_index (df_setitem df0 "Country" (Str name)) = List.map (cell j) records.
Proof.
  intros Hj Hp. unfold parse_file in Hp. rewrite Hj in Hp.
  inversion Hp; subst. unfold df_setitem, df_index.
  destruct (col_pos "Country" _); cbn; rewrite !map_map; reflexivity.
Qed.

(** What the body of the aggregator returns, in terms of the loader's
    tables. *)
Lemma aggregator_run country_list w c :
  exists dfs c' evs,
    mapM load_country_data country_list w c = (Ok dfs, c', evs) /\
    length dfs = length country_list /\
    load_all_countries_data_wrapped country_list w c
    = (Ok match List.filter (fun df => negb (df_empty df)) dfs with
          | [] => pd_DataFrame
          | surviving =>
              mkDataFrame (union_columns [] surviving)
                (flat_map
                   (fun df =>
                      List.map
                        (fun r => (fst r,
                                   reindex_cells (columns df)
                                     (union_columns [] surviving) (snd r)))
                        (rows df))
                   surviving)
          end, c', evs).
Proof.
  destruct (mapM_load_ok country_list w c) as (dfs & c' & evs & Hm & Hlen).
  exists dfs, c', evs. split; [ exact Hm |]. split; [ exact Hlen |].
  unfold load_all_countries_data_wrapped. unfold_M.
  rewrite (load_loop_mapM country_list [] w c). unfold_M. rewrite Hm.
  cbn [app]. destruct (List.filter _ dfs) as [|df rest];
    cbn [pd_concat]; now rewrite !app_nil_r.
Qed.

(** C2.  The aggregator's run is one call of the loader per entity of the
    list, in list order: it leaves the caches and the events those calls
    leave.  It drops the tables that came back empty; if all did, it
    returns the empty table.  Otherwise the combined table lists the rows
    of the remaining tables one table after the other in list order, each
    table's rows in their own order and under their own index labels, and
    every cell of a row is found again under its column label.  The loader
    itself keeps the records of a file in file order under the labels of
    the [Timestamp] field, so that order and those labels reach the
    combined table.  The decorated aggregator, on a list it has not seen,
    returns what its body returns. *)
Theorem aggregator_keeps_order_and_labels
    (country_list : list string) (w : World) (c : Caches) :
  exists dfs c' evs combined,
    mapM load_country_data country_list w c = (Ok dfs, c', evs) /\
    length dfs = length country_list /\
    load_all_countries_data_wrapped country_list w c = (Ok combined, c', evs) /\
    (all_cache c !! country_list = None ->
     exists c'',
       load_all_countries_data country_list w c = (Ok combined, c'', evs)) /\
    let surviving := List.filter (fun df => negb (df_empty df)) dfs in
    (Forall (fun df => df_empty df = true) dfs -> combined = pd_DataFrame) /\
    df_index combined = flat_map df_index surviving /\
    rows combined
    = flat_map
        (fun df =>
           List.map
             (fun r => (fst r,
                        reindex_cells (columns df) (columns combined) (snd r)))
             (rows df))
        surviving /\
    (forall df col j,
       In df surviving -> col_pos col (columns df) = Some j ->
       exists i,
         col_pos col (columns combined) = Some i /\
         forall r,
           In r (rows df) ->
           cell i (reindex_cells (columns df) (columns combined) (snd r))
           = cell j (snd r)) /\
    (forall path header records df0 j name,
       col_pos "Timestamp" header = Some j ->
       parse_file path "Timestamp" (Some (Csv header records)) = Ok df0 ->
       df_index (df_setitem df0 "Country" (Str name))
       = List.map (cell j) records).
Proof.
  destruct (aggregator_run country_list w c)
    as (dfs & c' & evs & Hm & Hlen & Hrun).
  eexists dfs, c', evs, _.
  split; [ exact Hm |]. split; [ exact Hlen |]. split; [ exact Hrun |].
  split.
  { intros Hmiss. unfold load_all_countries_data, st_cache_data.
    rewrite Hmiss, Hrun. eauto. }
  cbv zeta.
  destruct (List.filter (fun df => negb (df_empty df)) dfs)
    as [|df0 rest] eqn:Es.
  - split; [ reflexivity |]. split; [ reflexivity |]. split; [ reflexivity |].
    split; [ intros df col j [] | apply loaded_index_in_file_order ].
  - cbn [columns rows].
    set (cols := union_columns [] (df0 :: rest)).
    split.
    { intros Hall. exfalso.
      rewrite filter_nil_Forall in Es; [ discriminate |].
      eapply Forall_impl; [ exact Hall | intros df ->; reflexivity ]. }
    split; [ unfold df_index; cbn [rows]; apply concat_index |].
    split; [ reflexivity |].
    split; [| apply loaded_index_in_file_order ].
    intros df col j Hdf Hj.
    assert (Hin : In col cols).
    { apply (union_columns_incl _ [] df); [ exact Hdf |].
      apply col_pos_Some in Hj. eapply nth_error_In; eauto. }
    destruct (col_pos_In _ _ Hin) as [i Hi].
    exists i. split; [ exact Hi |].
    intros r _. rewrite (reindex_cells_cell _ _ _ _ _ Hi). now rewrite Hj.
Qed.

Lemma aggregator_keeps_order_and_labels_witness :
  exists combined c' evs,
    load_all_countries_data_wrapped default_country_list sample_world no_caches
    = (Ok combined, c', evs) /\
    df_index combined
    = [Str "2021-08-09 00:01"; Str "2021-08-09 00:02"; Str "2021-10-25 00:01"].
Proof.
  destruct (aggregator_keeps_order_and_labels default_country_list sample_world
              no_caches)
    as (dfs & c' & evs & combined & Hm & _ & Hrun & _ & _ & Hindex & _).
  exists combined, c', evs. split; [ exact Hrun |].
  rewrite Hindex. vm_compute in Hm. inversion Hm. reflexivity.
Defined.

(** C10.  With an empty entity list the loop leaves no table, the guard
    returns the empty table and the concatenation, which raises on an empty
    collection, is not reached: the body returns the empty table without an
    event, and so does the decorated aggregator whenever the entries of its
    cache come from earlier runs of the body. *)
Theorem empty_entity_list_is_guarded (w : World) (c : Caches) :
  (exists e, pd_concat [] = Raise e) /\
  load_all_countries_data_wrapped [] w c = (Ok pd_DataFrame, c, []) /\
  (all_cache_sound c ->
   exists c', load_all_countries_data [] w c = (Ok pd_DataFrame, c', [])).
Proof.
  split; [ eexists; reflexivity |].
  split; [ reflexivity |].
  intros Hsound. unfold load_all_countries_data, st_cache_data.
  destruct (all_cache c !! []) as [[df msgs]|] eqn:Hc.
  - destruct (Hsound _ _ _ Hc) as (w0 & c0 & c1 & evs & Hb & ->).
    inversion Hb; subst. eauto.
  - cbn. eauto.
Qed.

Lemma empty_entity_list_is_guarded_witness :
  exists c', load_all_countries_data [] sample_world no_caches
             = (Ok pd_DataFrame, c', []).
Proof.
  destruct (empty_entity_list_is_guarded sample_world no_caches)
    as (_ & _ & Hdecorated).
  apply Hdecorated, no_caches_sound.
Defined.

(** *** Soundness of the caches is kept by every call *)

Lemma load_country_data_sound name w c r c' evs :
  load_country_data name w c = (r, c', evs) ->
  country_cache_sound c -> country_cache_sound c'.
Proof.
  intros Hrun Hs.
  destruct (country_cache c !! name) as [[df msgs]|] eqn:Hc.
  - rewrite (load_country_data_hit _ _ _ _ _ Hc) in Hrun.
    inversion Hrun; subst. exact Hs.
  - destruct (load_country_data_miss name w c Hc) as (df & evs' & Hb & Hd).
    rewrite Hd in Hrun. inversion Hrun; subst.
    intros k d m Hk. cbn in Hk.
    destruct (decide (name = k)) as [->|Hne].
    + rewrite lookup_insert_eq in Hk. inversion Hk; subst. eauto.
    + rewrite lookup_insert_ne in Hk by exact Hne. eauto.
Qed.

Lemma load_loop_sound country_list :
  forall all_dfs w c r c' evs,
    load_loop country_list all_dfs w c = (r, c', evs) ->
    country_cache_sound c -> country_cache_sound c'.
Proof.
  induction country_list as [|country rest IH];
    intros all_dfs w c r c' evs Hrun Hs.
  - inversion Hrun; subst. exact Hs.
  - cbn [load_loop] in Hrun. unfold_M.
    destruct (load_country_data country w c) as [[r1 c1] ev1] eqn:H1.
    pose proof (load_country_data_sound _ _ _ _ _ _ H1 Hs) as Hs1.
    destruct r1 as [df|e1].
    + destruct (load_loop rest _ w c1) as [[r2 c2] ev2] eqn:H2.
      inversion Hrun; subst. eapply IH; eauto.
    + inversion Hrun; subst. exact Hs1.
Qed.

Lemma run_call_sound w k c : caches_sound c -> caches_sound (run_call w k c).
Proof.
  intros [Hc Ha]. destruct k as [name|l]; cbn.
  - destruct (load_country_data name w c) as [[r c'] evs] eqn:Hrun. cbn.
    split; [ eapply load_country_data_sound; eauto |].
    destruct (load_country_data_keeps _ _ _ _ _ _ Hrun) as [Hall _].
    intros k d m Hk. rewrite Hall in Hk. eauto.
  - unfold load_all_countries_data, st_cache_data.
    destruct (all_cache c !! l) as [[df msgs]|] eqn:Hl; [ now split |].
    destruct (load_all_countries_data_wrapped l w c) as [[r c1] evs] eqn:Hrun.
    assert (Hc1 : country_cache_sound c1).
    { revert Hrun. unfold load_all_countries_data_wrapped. unfold_M.
      destruct (load_loop l [] w c) as [[r1 c2] ev1] eqn:H1.
      pose proof (load_loop_sound _ _ _ _ _ _ _ H1 Hc) as Hs.
      destruct r1 as [[|d ds]|e]; intros Hrun; inversion Hrun; subst; exact Hs. }
    destruct (load_all_wrapped_keeps _ _ _ _ _ _ Hrun) as [Hall _].
    destruct r as [df|e]; cbn.
    + split; [ exact Hc1 |].
      intros k d m Hk. cbn in Hk.
      destruct (decide (l = k)) as [->|Hne].
      * rewrite lookup_insert_eq in Hk. inversion Hk; subst. eauto 10.
      * rewrite lookup_insert_ne in Hk by exact Hne.
        rewrite Hall in Hk. eauto.
    + split; [ exact Hc1 |]. intros k d m Hk. rewrite Hall in Hk. eauto.
Qed.

Lemma run_calls_sound ks : forall c, caches_sound c -> caches_sound (run_calls ks c).
Proof.
  induction ks as [|[w k] ks IH]; intros c Hs; [ exact Hs |].
  cbn. apply IH. now apply run_call_sound.
Qed.

(** ** The boxplot helper *)

Lemma px_column_ok df arg col j :
  col_pos col (columns df) = Some j ->
  px_column df arg col = Ok (List.map (fun r => cell j (snd r)) (rows df)).
Proof. intros H. unfold px_column. now rewrite H. Qed.

Lemma px_column_raises df arg col :
  col_pos col (columns df) = None -> exists e, px_column df arg col = Raise e.
Proof. intros H. unfold px_column. rewrite H. eauto. Qed.

Lemma in_columns_col_pos col df :
  in_columns col df = true -> exists j, col_pos col (columns df) = Some j.
Proof. intros H. apply col_pos_In. now apply in_columns_true. Qed.

Lemma in_columns_false col df :
  in_columns col df = false -> col_pos col (columns df) = None.
Proof.
  intros H. destruct (col_pos col (columns df)) as [j|] eqn:E; [| reflexivity ].
  apply col_pos_Some, nth_error_In, in_columns_true in E. congruence.
Qed.

(** *** Tables the aggregator returns carry the entity column *)

Lemma df_setitem_columns df col v : In col (columns (df_setitem df col v)).
Proof.
  unfold df_setitem. destruct (col_pos col (columns df)) as [j|] eqn:E; cbn.
  - eapply nth_error_In, col_pos_Some, E.
  - apply in_or_app. right. now left.
Qed.

Lemma loader_body_carries name w c df evs :
  load_country_data_wrapped name w c = (Ok df, c, evs) -> carries_country df.
Proof.
  destruct (filename_map !! name) as [filename|] eqn:Hf.
  - rewrite (loader_body_run _ _ _ _ Hf). cbv zeta. unfold after_read.
    repeat match goal with
           | |- context [match ?x with _ => _ end] => destruct x
           end; intros Hrun; inversion Hrun; subst;
      solve [ now left | right; apply df_setitem_columns ].
  - rewrite (loader_body_unknown _ _ _ Hf). intros Hrun; inversion Hrun. now left.
Qed.

Lemma load_country_data_carries name w c df c' evs :
  country_cache_sound c ->
  load_country_data name w c = (Ok df, c', evs) -> carries_country df.
Proof.
  intros Hs Hrun.
  destruct (country_cache c !! name) as [[d msgs]|] eqn:Hc.
  - rewrite (load_country_data_hit _ _ _ _ _ Hc) in Hrun. inversion Hrun; subst.
    destruct (Hs _ _ _ Hc) as (w0 & c0 & evs0 & Hb & _).
    eapply loader_body_carries; eauto.
  - destruct (load_country_data_miss name w c Hc) as (d & evs' & Hb & Hd).
    rewrite Hd in Hrun. inversion Hrun; subst.
    eapply loader_body_carries; eauto.
Qed.

Lemma mapM_load_carries country_list :
  forall w c dfs c' evs,
    country_cache_sound c ->
    mapM load_country_data country_list w c = (Ok dfs, c', evs) ->
    Forall carries_country dfs.
Proof.
  induction country_list as [|country rest IH]; intros w c dfs c' evs Hs Hrun.
  - inversion Hrun. constructor.
  - cbn [mapM] in Hrun. unfold_M.
    destruct (load_country_data country w c) as [[[df|e] c1] ev1] eqn:H1;
      [| discriminate ].
    destruct (mapM load_country_data rest w c1) as [[[ds|e] c2] ev2] eqn:H2;
      [| discriminate ].
    inversion Hrun; subst. constructor.
    + eapply load_country_data_carries; eauto.
    + eapply IH; [| exact H2 ]. eapply load_country_data_sound; eauto.
Qed.

Lemma aggregator_carries_country country_list w c df c' evs :
  country_cache_sound c ->
  load_all_countries_data_wrapped country_list w c = (Ok df, c', evs) ->
  df_empty df = false -> in_columns "Country" df = true.
Proof.
  intros Hs Hrun Hne.
  destruct (aggregator_run country_list w c)
    as (dfs & c1 & ev1 & Hm & _ & Hshape).
  rewrite Hshape in Hrun. inversion Hrun; subst; clear Hrun.
  pose proof (mapM_load_carries _ _ _ _ _ _ Hs Hm) as Hall.
  destruct (List.filter _ dfs) as [|d rest] eqn:Ef; [ discriminate |].
  apply in_columns_true.
  change (In "Country" (union_columns [] (d :: rest))).
  assert (Hd : In d dfs /\ negb (df_empty d) = true).
  { apply (proj1 (filter_In (fun df => negb (df_empty df)) d dfs)).
    rewrite Ef. now left. }
  destruct Hd as [Hin Hd].
  rewrite List.Forall_forall in Hall. destruct (Hall d Hin) as [->|Hc].
  - discriminate.
  - apply (union_columns_incl _ [] d); [ now left | exact Hc ].
Qed.

Lemma combine_map {A B C} (f : A -> B) (g : A -> C) l :
  combine (List.map f l) (List.map g l) = List.map (fun a => (f a, g a)) l.
Proof. induction l as [|a l IH]; cbn; [ reflexivity | now rewrite IH ]. Qed.

(** C8.  The helper is given the combined table: a table that is empty or
    has the entity column [Country], as every table the aggregator returns
    is.  On such a table it never raises, and it returns [None] exactly when
    the table is empty or lacks the metric column; for a table that is not
    empty and has the metric column it returns a figure holding the
    (entity, metric) pairs of the rows, in row order. *)
Theorem boxplot_absent_or_present (df : DataFrame) (metric title : string) :
  (forall country_list w c c' evs,
     country_cache_sound c ->
     load_all_countries_data_wrapped country_list w c = (Ok df, c', evs) ->
     df_empty df = true \/ in_columns "Country" df = true) /\
  (df_empty df = true \/ in_columns "Country" df = true ->
   (exists present, create_comparison_boxplot df metric title = Ok present) /\
   (create_comparison_boxplot df metric title = Ok None <->
    df_empty df = true \/ in_columns metric df = false) /\
   (df_empty df = false -> in_columns metric df = true ->
    exists fig jc jm,
      create_comparison_boxplot df metric title = Ok (Some fig) /\
      col_pos "Country" (columns df) = Some jc /\
      col_pos metric (columns df) = Some jm /\
      combine (fig_x fig) (fig_y fig)
      = List.map (fun r => (cell jc (snd r), cell jm (snd r))) (rows df))).
Proof.
  split.
  { intros country_list w c c' evs Hs Hrun.
    destruct (df_empty df) eqn:He; [ now left | right ].
    eapply aggregator_carries_country; eauto. }
  intros Hadm.
  assert (Hpresent :
            df_empty df = false -> in_columns metric df = true ->
            exists fig jc jm,
              create_comparison_boxplot df metric title = Ok (Some fig) /\
              col_pos "Country" (columns df) = Some jc /\
              col_pos metric (columns df) = Some jm /\
              combine (fig_x fig) (fig_y fig)
              = List.map (fun r => (cell jc (snd r), cell jm (snd r))) (rows df)).
  { intros He Hm. destruct Hadm as [Hadm|Hadm]; [ congruence |].
    destruct (in_columns_col_pos _ _ Hadm) as [jc Hc].
    destruct (in_columns_col_pos _ _ Hm) as [jm Hjm].
    unfold create_comparison_boxplot. rewrite He, Hm. cbn [orb negb].
    unfold px_box.
    rewrite !(px_column_ok _ _ _ _ Hc), (px_column_ok _ _ _ _ Hjm).
    eexists _, jc, jm. split; [ reflexivity |].
    split; [ exact Hc |]. split; [ exact Hjm |].
    cbn. apply combine_map. }
  split; [| split; [| exact Hpresent ] ].
  - destruct (df_empty df) eqn:He.
    { exists None. unfold create_comparison_boxplot. now rewrite He. }
    destruct (in_columns metric df) eqn:Hm.
    + destruct (Hpresent eq_refl eq_refl) as (fig & _ & _ & Hrun & _). eauto.
    + exists None. unfold create_comparison_boxplot. rewrite He, Hm. reflexivity.
  - destruct (df_empty df) eqn:He.
    { split; [ auto |]. intros _. unfold create_comparison_boxplot. now rewrite He. }
    destruct (in_columns metric df) eqn:Hm.
    + destruct (Hpresent eq_refl eq_refl) as (fig & _ & _ & Hrun & _).
      rewrite Hrun. split; [ discriminate | intros [|]; discriminate ].
    + split; [ auto |]. intros _.
      unfold create_comparison_boxplot. rewrite He, Hm. reflexivity.
Qed.

Lemma boxplot_absent_or_present_witness :
  (exists fig,
     create_comparison_boxplot sample_table "GHI" "GHI Distribution by Country"
     = Ok (Some fig) /\
     combine (fig_x fig) (fig_y fig)
     = [(Str "X", Num 10); (Str "X", Num 60); (Str "X", Num 80)]) /\
  create_comparison_boxplot sample_table "DNI" "DNI Distribution by Country"
  = Ok None /\
  create_comparison_boxplot pd_DataFrame "GHI" "GHI Distribution by Country"
  = Ok None.
Proof.
  split; [| split ].
  - destruct (boxplot_absent_or_present sample_table "GHI"
                "GHI Distribution by Country") as (_ & Hgiven).
    destruct Hgiven as (_ & _ & Hpresent); [ right; reflexivity |].
    destruct Hpresent as (fig & jc & jm & Hrun & Hc & Hm & Hpairs);
      [ reflexivity | reflexivity |].
    exists fig. split; [ exact Hrun |].
    vm_compute in Hc. vm_compute in Hm.
    inversion Hc; inversion Hm; subst jc jm. exact Hpairs.
  - destruct (boxplot_absent_or_present sample_table "DNI"
                "DNI Distribution by Country") as (_ & Hgiven).
    destruct Hgiven as (_ & Habsent & _); [ right; reflexivity |].
    apply Habsent. right. reflexivity.
  - destruct (boxplot_absent_or_present pd_DataFrame "GHI"
                "GHI Distribution by Country") as (_ & Hgiven).
    destruct Hgiven as (_ & Habsent & _); [ left; reflexivity |].
    apply Habsent. left. reflexivity.
Defined.

(** ** The ranking *)

Lemma rmapM_ok {A B} (f : A -> result B) (g : A -> B) l :
  (forall a, In a l -> f a = Ok (g a)) -> rmapM f l = Ok (List.map g l).
Proof.
  induction l as [|a l IH]; intros H; [ reflexivity |].
  cbn. rewrite (H a) by now left. cbn.
  rewrite IH by (intros; apply H; now right). reflexivity.
Qed.

Lemma value_gt_exceeds v :
  is_str v = false -> value_gt 50 v = Ok (exceeds 50 v).
Proof. destruct v; [ reflexivity | reflexivity | discriminate ]. Qed.

Lemma mask_filter {A} (f : A -> bool) (l : list A) :
  List.map fst (List.filter snd (combine l (List.map f l))) = List.filter f l.
Proof.
  induction l as [|a l IH]; [ reflexivity |].
  cbn. destruct (f a); cbn; now rewrite IH.
Qed.

Lemma numeric_cells_numbers vals :
  Forall (fun v => is_str v = false) vals ->
  numeric_cells vals = Ok (numbers vals).
Proof.
  induction 1 as [|v vals Hv _ IH]; [ reflexivity |].
  destruct v as [|q|s]; cbn; [ exact IH | | discriminate ].
  rewrite IH. reflexivity.
Qed.

Lemma Qplus_inject_Z_1 (z : Z) : (inject_Z z + 1)%Q = inject_Z (z + 1).
Proof. unfold Qplus, inject_Z. cbn. f_equal. lia. Qed.

Lemma index_add_ranks {A} (f : A -> list value) :
  forall items start,
    rmapM (fun r => l ← label_add 1 (fst r); Ok (l, snd r))
      (combine
         (List.map (fun i => Num (inject_Z (Z.of_nat i)))
            (seq start (length items)))
         (List.map f items))
    = Ok (combine
            (List.map (fun i => Num (inject_Z (Z.of_nat (S i))))
               (seq start (length items)))
            (List.map f items)).
Proof.
  induction items as [|it items IH]; intros start; [ reflexivity |].
  cbn [length seq List.map combine rmapM fst snd label_add].
  cbn [mbind result_bind rbind]. rewrite IH. cbn [mbind result_bind rbind].
  rewrite Qplus_inject_Z_1. do 5 f_equal. lia.
Qed.

Lemma rename_ranking_columns :
  List.map (fun c => default c (({[ "GHI" := ranking_column ]} : gmap string string) !! c))
    ["Country"; "GHI"]
  = ["Country"; ranking_column].
Proof. reflexivity. Qed.

Lemma retained_rows_subset jg df r :
  In r (retained_rows jg df) -> In r (rows df).
Proof. unfold retained_rows. intros H. now apply filter_In in H. Qed.

(** The ranking, run symbolically on a table that is not empty and whose
    GHI column holds no strings. *)
Lemma ranking_run sort df jg :
  df_empty df = false ->
  col_pos "GHI" (columns df) = Some jg ->
  Forall (fun r => is_str (cell jg (snd r)) = false) (rows df) ->
  create_ghi_ranking_table sort df
  = match retained_rows jg df with
    | [] => Ok (pd_DataFrame_dict "Message" [Str no_daytime_message])
    | _ =>
        match col_pos "Country" (columns df) with
        | None => Raise (KeyError "Country")
        | Some jb =>
            let sorted := sort (group_means jb jg df) in
            Ok (mkDataFrame ["Country"; ranking_column]
                  (combine (ranks (length sorted))
                     (List.map (fun it => [fst it; snd it]) sorted)))
        end
    end.
Proof.
  intros He Hg Hnum. unfold create_ghi_ranking_table.
  assert (Hin : in_columns "GHI" df = true).
  { apply in_columns_true. eapply nth_error_In, col_pos_Some, Hg. }
  rewrite He, Hin. cbn [orb negb].
  unfold df_getitem. rewrite Hg. cbn [mbind result_bind rbind].
  unfold series_gt. cbn [s_items].
  rewrite (rmapM_ok _ (fun it => exceeds 50 (snd it))).
  2:{ intros it Hit. apply in_map_iff in Hit. destruct Hit as (r & <- & Hr).
      apply value_gt_exceeds. cbn.
      rewrite List.Forall_forall in Hnum. now apply Hnum. }
  cbn [mbind result_bind rbind]. rewrite map_map. cbn [snd].
  unfold df_mask. rewrite mask_filter. fold (retained_rows jg df).
  assert (Hempty : forall rs,
            df_empty (mkDataFrame (columns df) rs)
            = match rs with [] => true | _ => false end).
  { intros rs. unfold df_empty in *. cbn [columns rows].
    destruct (columns df); [ discriminate | reflexivity ]. }
  rewrite Hempty.
  destruct (retained_rows jg df) as [|r0 rest] eqn:Er; [ reflexivity |].
  rewrite <- Er. unfold groupby_mean. cbn [columns].
  destruct (col_pos "Country" (columns df)) as [jb|] eqn:Hb; [| reflexivity ].
  rewrite Hg.
  rewrite (rmapM_ok _
             (fun k =>
                (k, mean (numbers
                            (group_cells jb jg
                               (mkDataFrame (columns df) (retained_rows jg df))
                               k))))).
  2:{ intros k _. unfold series_mean. rewrite numeric_cells_numbers; [ reflexivity |].
      unfold group_cells. cbn [rows]. apply List.Forall_forall.
      intros v Hv. apply in_map_iff in Hv. destruct Hv as (r & <- & Hr).
      apply filter_In in Hr. destruct Hr as [Hr _].
      apply retained_rows_subset in Hr.
      rewrite List.Forall_forall in Hnum. now apply Hnum. }
  cbn [mbind result_bind rbind]. fold (group_means jb jg df).
  cbn [s_name s_index_name]. unfold reset_index. cbn [s_name s_index_name s_items].
  unfold df_rename. cbn [columns rows]. rewrite rename_ranking_columns.
  unfold df_index_add. cbn [columns rows]. unfold range_index.
  rewrite index_add_ranks. reflexivity.
Qed.

(** C4.  The ranking raises in neither of its two degraded cases.  For a
    table that is empty or has no GHI column it returns the empty table, a
    table without columns and without rows.  For a table that is not empty
    and has a GHI column in which the test GHI > 50 is false on every row,
    it returns a table of one column [Message] and one row, labelled 0,
    that holds the sentence "No daytime GHI data (GHI > 50 W/m^2) available
    for ranking."; that table is not empty, so the two cases are told
    apart. *)
Theorem ranking_degraded_outcomes
    (sort : list (value * value) -> list (value * value)) (df : DataFrame) :
  (df_empty df = true \/ in_columns "GHI" df = false ->
   create_ghi_ranking_table sort df = Ok (mkDataFrame [] [])) /\
  (forall jg,
     df_empty df = false ->
     col_pos "GHI" (columns df) = Some jg ->
     Forall (fun r => value_gt 50 (cell jg (snd r)) = Ok false) (rows df) ->
     create_ghi_ranking_table sort df
     = Ok (mkDataFrame ["Message"]
             [(Num 0,
               [Str "No daytime GHI data (GHI > 50 W/m^2) available for ranking."])])) /\
  df_empty (mkDataFrame [] []) = true /\
  df_empty
    (mkDataFrame ["Message"]
       [(Num 0,
         [Str "No daytime GHI data (GHI > 50 W/m^2) available for ranking."])])
  = false.
Proof.
  split; [| split; [| split; reflexivity ] ].
  - unfold create_ghi_ranking_table.
    intros [->| ->]; [ reflexivity |]. now rewrite orb_true_r.
  - intros jg He Hg Hall.
    assert (Hnum : Forall (fun r => is_str (cell jg (snd r)) = false) (rows df)).
    { eapply List.Forall_impl; [| exact Hall ].
      intros r. cbn beta.
      destruct (cell jg (snd r)); [ reflexivity | reflexivity | discriminate ]. }
    rewrite (ranking_run sort df jg He Hg Hnum).
    assert (Hret : retained_rows jg df = []).
    { unfold retained_rows. apply filter_nil_Forall.
      eapply List.Forall_impl; [| exact Hall ].
      intros r. cbn beta.
      destruct (cell jg (snd r)) as [|q|s]; cbn; intros Hr;
        [ reflexivity | now inversion Hr | discriminate ]. }
    rewrite Hret. reflexivity.
Qed.

Lemma ranking_degraded_outcomes_witness :
  create_ghi_ranking_table stable_sort_descending pd_DataFrame
  = Ok (mkDataFrame [] []) /\
  create_ghi_ranking_table stable_sort_descending table_without_country
  <> Ok (mkDataFrame [] []) /\
  create_ghi_ranking_table stable_sort_descending night_table
  = Ok (mkDataFrame ["Message"]
          [(Num 0,
            [Str "No daytime GHI data (GHI > 50 W/m^2) available for ranking."])]).
Proof.
  split; [| split ].
  - apply (ranking_degraded_outcomes stable_sort_descending pd_DataFrame).
    left. reflexivity.
  - discriminate.
  - destruct (ranking_degraded_outcomes stable_sort_descending night_table)
      as (_ & Hnight & _).
    apply (Hnight 0%nat); [ reflexivity | reflexivity |].
    repeat constructor.
Defined.

(** *** The sorts *)

Lemma insert_before_equal_perm it l :
  Permutation (insert_before_equal it l) (it :: l).
Proof.
  induction l as [|h t IH]; cbn; [ reflexivity |].
  destruct (value_num_leb (snd h) (snd it)); [ reflexivity |].
  rewrite IH. apply perm_swap.
Qed.

Lemma is_num_item_Num it : is_num_item it -> exists q, snd it = Num q.
Proof.
  intros [Hs Hn]. destruct (snd it) as [|q|s]; [ discriminate | eauto | discriminate ].
Qed.

Lemma item_ge_of_leb a b :
  is_num_item a -> is_num_item b ->
  value_num_leb (snd b) (snd a) = true -> item_ge a b.
Proof.
  intros Ha Hb. destruct (is_num_item_Num _ Ha) as [p Hp].
  destruct (is_num_item_Num _ Hb) as [q Hq].
  unfold item_ge. rewrite Hp, Hq. cbn. apply Qle_bool_imp_le.
Qed.

Lemma item_ge_of_not_leb a b :
  is_num_item a -> is_num_item b ->
  value_num_leb (snd a) (snd b) = false -> item_ge a b.
Proof.
  intros Ha Hb. destruct (is_num_item_Num _ Ha) as [p Hp].
  destruct (is_num_item_Num _ Hb) as [q Hq].
  unfold item_ge. rewrite Hp, Hq. cbn. intros H.
  destruct (Qlt_le_dec q p) as [Hlt|Hle]; [ now apply Qlt_le_weak |].
  apply Qle_bool_iff in Hle. congruence.
Qed.

Lemma item_ge_trans a b c : item_ge a b -> item_ge b c -> item_ge a c.
Proof.
  unfold item_ge.
  destruct (snd a), (snd b), (snd c); try tauto.
  intros H1 H2. eapply Qle_trans; eauto.
Qed.

Lemma insert_before_equal_sorted it l :
  is_num_item it -> Forall is_num_item l ->
  StronglySorted item_ge l -> StronglySorted item_ge (insert_before_equal it l).
Proof.
  intros Hit Hl Hs. induction Hs as [|h t Hs IH Hh]; cbn.
  - constructor; constructor.
  - apply List.Forall_cons_iff in Hl. destruct Hl as [Hnh Hnt].
    destruct (value_num_leb (snd h) (snd it)) eqn:E.
    + pose proof (item_ge_of_leb it h Hit Hnh E) as Hge.
      constructor; [ now constructor |].
      constructor; [ exact Hge |].
      eapply List.Forall_impl; [| exact Hh ].
      intros b Hb. eapply item_ge_trans; eauto.
    + constructor; [ now apply IH |].
      eapply Permutation_Forall;
        [ symmetry; apply insert_before_equal_perm |].
      constructor; [| exact Hh ].
      now apply item_ge_of_not_leb.
Qed.

Lemma stable_sort_is_descending : sorts_descending stable_sort_descending.
Proof.
  intros items. unfold stable_sort_descending. split.
  - induction items as [|it items IH]; cbn; [ reflexivity |].
    rewrite insert_before_equal_perm. now constructor.
  - induction 1 as [|it items Hit Hitems IH]; cbn; [ constructor |].
    apply insert_before_equal_sorted; [ exact Hit | | exact IH ].
    eapply Permutation_Forall; [| exact Hitems ].
    clear. induction items as [|it items IH]; cbn; [ reflexivity |].
    rewrite insert_before_equal_perm. now constructor.
Qed.

(** *** The sort of [nargsort] *)

Lemma insert_ascending_perm it l :
  Permutation (insert_ascending it l) (it :: l).
Proof.
  induction l as [|h t IH]; cbn; [ reflexivity |].
  destruct (value_lt (snd it) (snd h)); [ reflexivity |].
  rewrite IH. apply perm_swap.
Qed.

Lemma item_ge_of_lt a b :
  is_num_item a -> is_num_item b ->
  value_lt (snd a) (snd b) = true -> item_ge b a.
Proof.
  intros Ha Hb. destruct (is_num_item_Num _ Ha) as [p Hp].
  destruct (is_num_item_Num _ Hb) as [q Hq].
  unfold item_ge. rewrite Hp, Hq. cbn. intros H.
  destruct (Qlt_le_dec p q) as [Hlt|Hle]; [ now apply Qlt_le_weak |].
  apply Qle_bool_iff in Hle. rewrite Hle in H. discriminate.
Qed.

Lemma item_ge_of_not_lt a b :
  is_num_item a -> is_num_item b ->
  value_lt (snd a) (snd b) = false -> item_ge a b.
Proof.
  intros Ha Hb. destruct (is_num_item_Num _ Ha) as [p Hp].
  destruct (is_num_item_Num _ Hb) as [q Hq].
  unfold item_ge. rewrite Hp, Hq. cbn. intros H.
  apply Qle_bool_iff. now destruct (Qle_bool q p).
Qed.

Lemma insert_ascending_sorted it l :
  is_num_item it -> Forall is_num_item l ->
  StronglySorted (fun a b => item_ge b a) l ->
  StronglySorted (fun a b => item_ge b a) (insert_ascending it l).
Proof.
  intros Hit Hl Hs. induction Hs as [|h t Hs IH Hh]; cbn.
  - constructor; constructor.
  - apply List.Forall_cons_iff in Hl. destruct Hl as [Hnh Hnt].
    destruct (value_lt (snd it) (snd h)) eqn:E.
    + pose proof (item_ge_of_lt it h Hit Hnh E) as Hge.
      constructor; [ now constructor |].
      constructor; [ exact Hge |].
      eapply List.Forall_impl; [| exact Hh ].
      intros b Hb. cbn beta in *. eapply item_ge_trans; eauto.
    + constructor; [ now apply IH |].
      eapply Permutation_Forall;
        [ symmetry; apply insert_ascending_perm |].
      constructor; [| exact Hh ].
      now apply item_ge_of_not_lt.
Qed.

(** An item of value [m] that is below [h] stands before the first item of
    a sorted list [h :: t]: no item of that list has the value [m]. *)
Lemma has_value_below m it h :
  has_value m it = true -> value_lt (snd it) (snd h) = true ->
  has_value m h = false.
Proof.
  unfold has_value. destruct (snd it) as [|q|s]; try discriminate.
  destruct (snd h) as [|p|t]; try discriminate.
  cbn. intros Hq Hp. apply Qeq_bool_iff in Hq.
  destruct (Qeq_bool p m) eqn:E; [| reflexivity ].
  apply Qeq_bool_iff in E.
  assert (Hle : (p <= q)%Q) by (rewrite E, Hq; apply Qle_refl).
  apply Qle_bool_iff in Hle. rewrite Hle in Hp. discriminate.
Qed.

Lemma has_value_above m h b :
  has_value m h = false -> item_ge b h ->
  (forall q, snd h = Num q -> (m < q)%Q) ->
  has_value m b = false.
Proof.
  unfold has_value, item_ge.
  destruct (snd b) as [|p|s]; try reflexivity.
  destruct (snd h) as [|q|t]; try tauto.
  intros _ Hle Hlt. specialize (Hlt q eq_refl).
  destruct (Qeq_bool p m) eqn:E; [| reflexivity ].
  apply Qeq_bool_iff in E. exfalso.
  apply (Qlt_not_le _ _ Hlt). rewrite <- E. exact Hle.
Qed.

Lemma insert_ascending_keeps m it l :
  is_num_item it -> Forall is_num_item l ->
  StronglySorted (fun a b => item_ge b a) l ->
  List.filter (has_value m) (insert_ascending it l)
  = List.filter (has_value m) l ++ List.filter (has_value m) [it].
Proof.
  intros Hit Hl Hs. induction Hs as [|h t Hs IH Hh].
  - reflexivity.
  - apply List.Forall_cons_iff in Hl. destruct Hl as [Hnh Hnt].
    cbn [insert_ascending].
    destruct (value_lt (snd it) (snd h)) eqn:E.
    + destruct (has_value m it) eqn:Pit.
      * assert (Hnone : List.filter (has_value m) (h :: t) = []).
        { apply filter_nil_Forall.
          pose proof (has_value_below _ _ _ Pit E) as Ph.
          assert (Hlt : forall q, snd h = Num q -> (m < q)%Q).
          { intros q Hq. unfold has_value in Pit. unfold value_lt in E.
            rewrite Hq in E.
            destruct (snd it) as [|p|s]; try discriminate.
            apply Qeq_bool_iff in Pit. rewrite <- Pit.
            apply Qnot_le_lt. intros Hle. apply Qle_bool_iff in Hle.
            rewrite Hle in E. discriminate. }
          constructor; [ exact Ph |].
          eapply List.Forall_impl; [| exact Hh ].
          intros b Hb. cbn beta in Hb.
          eapply has_value_above; eauto. }
        rewrite Hnone.
        change (List.filter (has_value m) (it :: h :: t))
          with (if has_value m it
                then it :: List.filter (has_value m) (h :: t)
                else List.filter (has_value m) (h :: t)).
        rewrite Pit, Hnone. cbn [List.filter app]. now rewrite Pit.
      * cbn [List.filter]. rewrite Pit. now rewrite app_nil_r.
    + cbn [List.filter]. rewrite (IH Hnt).
      destruct (has_value m h); reflexivity.
Qed.

Lemma argsort_short_from items :
  forall sorted,
    Forall is_num_item items -> Forall is_num_item sorted ->
    StronglySorted (fun a b => item_ge b a) sorted ->
    let out := fold_left (fun sorted it => insert_ascending it sorted)
                 items sorted in
    Permutation out (sorted ++ items) /\
    StronglySorted (fun a b => item_ge b a) out /\
    forall m,
      List.filter (has_value m) out
      = List.filter (has_value m) sorted ++ List.filter (has_value m) items.
Proof.
  induction items as [|it items IH]; intros sorted Hitems Hsorted Hs; cbn zeta.
  - cbn [fold_left]. rewrite app_nil_r. split; [ reflexivity |].
    split; [ exact Hs |]. intros m. cbn. now rewrite app_nil_r.
  - apply List.Forall_cons_iff in Hitems. destruct Hitems as [Hit Hitems].
    cbn [fold_left].
    destruct (IH (insert_ascending it sorted)) as (Hperm & Hout & Hkeep).
    + exact Hitems.
    + eapply Permutation_Forall;
        [ symmetry; apply insert_ascending_perm |].
      now constructor.
    + now apply insert_ascending_sorted.
    + split; [| split; [ exact Hout |] ].
      * rewrite Hperm, insert_ascending_perm.
        change (it :: items) with ([it] ++ items).
        rewrite app_assoc. apply Permutation_app_tail.
        apply Permutation_cons_append.
      * intros m. rewrite Hkeep, (insert_ascending_keeps m it sorted Hit Hsorted Hs).
        rewrite <- app_assoc. f_equal. cbn [List.filter].
        destruct (has_value m it); reflexivity.
Qed.

Lemma StronglySorted_app {A} (R : A -> A -> Prop) l1 l2 :
  StronglySorted R l1 -> StronglySorted R l2 ->
  (forall a b, In a l1 -> In b l2 -> R a b) ->
  StronglySorted R (l1 ++ l2).
Proof.
  intros H1 H2 Hcross. induction H1 as [|a l1 H1 IH Ha]; [ exact H2 |].
  cbn. constructor.
  - apply IH. intros x y Hx Hy. apply Hcross; [ now right | exact Hy ].
  - apply List.Forall_app. split; [ exact Ha |].
    apply List.Forall_forall. intros y Hy. apply Hcross; [ now left | exact Hy ].
Qed.

Lemma StronglySorted_rev {A} (R : A -> A -> Prop) l :
  StronglySorted R l -> StronglySorted (fun a b => R b a) (rev l).
Proof.
  induction 1 as [|a l Hs IH Ha]; cbn; [ constructor |].
  apply StronglySorted_app; [ exact IH | repeat constructor |].
  intros x y Hx [<-|[]]. apply in_rev in Hx.
  rewrite List.Forall_forall in Ha. now apply Ha.
Qed.

Lemma filter_all {A} (f : A -> bool) l :
  Forall (fun a => f a = true) l -> List.filter f l = l.
Proof.
  induction 1 as [|a l Ha _ IH]; [ reflexivity |].
  cbn. now rewrite Ha, IH.
Qed.

(** On numbers [nargsort_descending] returns the same items in descending
    order, those of any one value in the order in which it was given
    them. *)
Lemma nargsort_descending_spec items :
  Forall is_num_item items ->
  Permutation (nargsort_descending items) items /\
  StronglySorted item_ge (nargsort_descending items) /\
  forall m,
    List.filter (has_value m) (nargsort_descending items)
    = List.filter (has_value m) items.
Proof.
  intros Hnum. unfold nargsort_descending. cbv zeta.
  rewrite (filter_all (fun it => negb (is_nan (snd it))) items).
  2:{ eapply List.Forall_impl; [| exact Hnum ].
      intros it [_ Hn]. now rewrite Hn. }
  assert (Hnans : List.filter (fun it => is_nan (snd it)) items = []).
  { apply filter_nil_Forall. eapply List.Forall_impl; [| exact Hnum ].
    intros it [_ Hn]. exact Hn. }
  rewrite Hnans, app_nil_r. unfold argsort_short.
  destruct (argsort_short_from (rev items) [])
    as (Hperm & Hsorted & Hkeep).
  - apply List.Forall_forall. intros it Hit. apply in_rev in Hit.
    rewrite List.Forall_forall in Hnum. now apply Hnum.
  - constructor.
  - constructor.
  - cbn [app] in Hperm. split; [| split ].
    + rewrite <- Permutation_rev, Hperm. symmetry. apply Permutation_rev.
    + apply (StronglySorted_rev (fun a b => item_ge b a)). exact Hsorted.
    + intros m. rewrite List.filter_rev, Hkeep. cbn [List.filter app].
      rewrite List.filter_rev. apply rev_involutive.
Qed.

(** *** Group keys *)

Lemma value_eqb_Str c v : value_eqb (Str c) v = true <-> v = Str c.
Proof.
  destruct v as [|q|s]; cbn; split; try discriminate.
  - intros H. apply String.eqb_eq in H. now subst.
  - intros H. inversion H. apply String.eqb_refl.
Qed.

Lemma str_is_Str v : is_str v = true -> exists c, v = Str c.
Proof. destruct v; try discriminate. eauto. Qed.

Lemma unique_In l x :
  Forall (fun v => is_str v = true) l -> In x (unique l) <-> In x l.
Proof.
  induction 1 as [|v l Hv Hl IH]; [ reflexivity |].
  cbn [unique]. split.
  - intros [->|Hin]; [ now left |].
    apply filter_In in Hin. right. now apply IH.
  - intros [->|Hin]; [ now left |].
    destruct (str_is_Str _ Hv) as [c ->].
    destruct (value_eqb (Str c) x) eqn:E.
    + apply value_eqb_Str in E. now left.
    + right. apply filter_In. split; [ now apply IH | now rewrite E ].
Qed.

Lemma unique_NoDup l :
  Forall (fun v => is_str v = true) l -> List.NoDup (unique l).
Proof.
  induction 1 as [|v l Hv Hl IH]; cbn [unique]; constructor.
  - intros Hin. apply filter_In in Hin. destruct Hin as [_ Hne].
    destruct (str_is_Str _ Hv) as [c ->].
    assert (E : value_eqb (Str c) (Str c) = true) by now apply value_eqb_Str.
    rewrite E in Hne. discriminate.
  - now apply List.NoDup_filter.
Qed.

Lemma insert_key_perm k l : Permutation (insert_key k l) (k :: l).
Proof.
  induction l as [|h t IH]; cbn; [ reflexivity |].
  destruct (value_leb k h); [ reflexivity |].
  rewrite IH. apply perm_swap.
Qed.

Lemma sort_keys_perm l : Permutation (sort_keys l) l.
Proof.
  unfold sort_keys. induction l as [|k l IH]; cbn; [ reflexivity |].
  rewrite insert_key_perm. now constructor.
Qed.

(** groupby iterates over the keys in sorted order, not in row order. *)
Lemma group_keys_sorted_example :
  group_keys 0
    (mkDataFrame ["Country"]
       [(NaN, [Str "Togo"]); (NaN, [Str "Benin"]); (NaN, [Str "Togo"]);
        (NaN, [Str "Sierra Leone"])])
  = [Str "Benin"; Str "Sierra Leone"; Str "Togo"].
Proof. reflexivity. Qed.

(** On a table whose entity cells are strings, the group keys are the
    entities that occur, each once. *)
Lemma group_keys_spec jb df :
  Forall (fun r => is_str (cell jb (snd r)) = true) (rows df) ->
  List.NoDup (group_keys jb df) /\
  forall k, In k (group_keys jb df) <->
            exists c, k = Str c /\ exists r, In r (rows df) /\ cell jb (snd r) = Str c.
Proof.
  intros Hstr. unfold group_keys.
  set (keys := List.filter (fun v => negb (is_nan v))
                 (List.map (fun r => cell jb (snd r)) (rows df))).
  assert (Hkeys : Forall (fun v => is_str v = true) keys).
  { apply List.Forall_forall. intros v Hv. apply filter_In in Hv.
    destruct Hv as [Hv _]. apply in_map_iff in Hv. destruct Hv as (r & <- & Hr).
    rewrite List.Forall_forall in Hstr. now apply Hstr. }
  split.
  - eapply Permutation_NoDup; [ symmetry; apply sort_keys_perm |].
    now apply unique_NoDup.
  - intros k. rewrite (Permutation_in' (eq_refl k) (sort_keys_perm _)).
    rewrite (unique_In _ _ Hkeys). unfold keys. rewrite filter_In, in_map_iff.
    split.
    + intros [(r & <- & Hr) _].
      rewrite List.Forall_forall in Hstr.
      destruct (str_is_Str _ (Hstr r Hr)) as [c Hc]. eauto.
    + intros (c & -> & r & Hr & Hc). split; [ eauto | reflexivity ].
Qed.

Lemma retained_rows_spec jg df r :
  In r (retained_rows jg df) <->
  In r (rows df) /\ exists q, cell jg (snd r) = Num q /\ (50 < q)%Q.
Proof.
  unfold retained_rows. rewrite filter_In. unfold exceeds.
  split; intros [Hin H]; (split; [ exact Hin |]).
  - destruct (cell jg (snd r)) as [|q|s]; try discriminate.
    exists q. split; [ reflexivity |].
    apply Qnot_le_lt. intros Hle. apply Qle_bool_iff in Hle.
    rewrite Hle in H. discriminate.
  - destruct H as (q & -> & Hlt).
    destruct (Qle_bool q 50) eqn:E; [| reflexivity ].
    apply Qle_bool_iff in E. exfalso. eapply Qlt_not_le; eauto.
Qed.

Lemma mean_spec qs :
  qs <> [] ->
  exists q, mean qs = Num q /\
            (q == Qsum qs / inject_Z (Z.of_nat (length qs)))%Q.
Proof.
  intros Hne. destruct qs as [|a qs]; [ congruence |].
  eexists. split; [ reflexivity | apply Qred_correct ].
Qed.

Lemma entity_ghis_nonempty jb jg df c r :
  In r (retained_rows jg df) -> cell jb (snd r) = Str c ->
  entity_ghis jb jg df c <> [].
Proof.
  intros Hr Hc. unfold entity_ghis.
  pose proof (proj1 (retained_rows_spec _ _ _) Hr) as (_ & q & Hq & _).
  assert (Hin : In q (numbers
                        (List.map (fun r => cell jg (snd r))
                           (List.filter
                              (fun r => value_eqb (Str c) (cell jb (snd r)))
                              (retained_rows jg df))))).
  { unfold numbers. apply in_flat_map. exists (Num q). split; [| now left ].
    apply in_map_iff. exists r. split; [ exact Hq |].
    apply filter_In. split; [ exact Hr |]. now apply value_eqb_Str. }
  intros E. rewrite E in Hin. destruct Hin.
Qed.

Lemma ranking_entries_from (sorted : list (value * value)) :
  forall start,
    List.map (fun r => (cell 0 (snd r), cell 1 (snd r)))
      (combine
         (List.map (fun i => Num (inject_Z (Z.of_nat (S i))))
            (seq start (length sorted)))
         (List.map (fun it => [fst it; snd it]) sorted))
    = sorted.
Proof.
  induction sorted as [|[k m] sorted IH]; intros start; [ reflexivity |].
  cbn. now rewrite IH.
Qed.

Lemma ranking_entries_rows (sorted : list (value * value)) :
  List.map (fun r => (cell 0 (snd r), cell 1 (snd r)))
    (combine (ranks (length sorted))
       (List.map (fun it => [fst it; snd it]) sorted))
  = sorted.
Proof. apply ranking_entries_from. Qed.

Lemma ranks_nth {A} (cells : list A) :
  forall start i l x,
    nth_error
      (combine
         (List.map (fun i => Num (inject_Z (Z.of_nat (S i))))
            (seq start (length cells)))
         cells) i = Some (l, x) ->
    l = Num (inject_Z (Z.of_nat (S (start + i)))).
Proof.
  induction cells as [|c cells IH]; intros start [|i] l x H; try discriminate.
  - cbn in H. inversion H; subst. now rewrite Nat.add_0_r.
  - cbn in H. apply IH in H. rewrite H. do 3 f_equal. lia.
Qed.

Lemma exceeds_spec v :
  exceeds 50 v = true <-> exists q, v = Num q /\ (50 < q)%Q.
Proof.
  unfold exceeds. split.
  - destruct v as [|q|s]; try discriminate. intros H.
    exists q. split; [ reflexivity |].
    apply Qnot_le_lt. intros Hle. apply Qle_bool_iff in Hle.
    rewrite Hle in H. discriminate.
  - intros (q & -> & Hlt).
    destruct (Qle_bool q 50) eqn:E; [| reflexivity ].
    apply Qle_bool_iff in E. exfalso. eapply Qlt_not_le; eauto.
Qed.

Lemma entity_ghis_spec jb jg df c :
  entity_ghis jb jg df c = spec_ghis_above_50 jb jg df c.
Proof.
  unfold entity_ghis, spec_ghis_above_50, retained_rows, numbers.
  induction (rows df) as [|r rs IH]; [ reflexivity |].
  cbn [List.filter flat_map].
  destruct (exceeds 50 (cell jg (snd r))) eqn:Ex.
  - cbn [List.filter].
    destruct (value_eqb (Str c) (cell jb (snd r))) eqn:Ek.
    + cbn [List.map flat_map]. rewrite IH. f_equal.
      apply value_eqb_Str in Ek. apply exceeds_spec in Ex.
      destruct Ex as (q & Eg & Hlt). rewrite Ek, Eg.
      destruct (decide (c = c)); [| congruence ].
      destruct (Qlt_le_dec 50 q) as [_|Hle]; [ reflexivity |].
      exfalso. eapply Qlt_not_le; eauto.
    + rewrite IH.
      destruct (cell jb (snd r)) as [|p|c'] eqn:Eb; try reflexivity.
      destruct (cell jg (snd r)) as [|q|s]; try reflexivity.
      destruct (decide (c' = c)) as [->|Hne]; [| reflexivity ].
      assert (Ht : value_eqb (Str c) (Str c) = true) by now apply value_eqb_Str.
      congruence.
  - rewrite IH.
    destruct (cell jb (snd r)) as [|p|c']; try reflexivity.
    destruct (cell jg (snd r)) as [|q|s] eqn:Eg; try reflexivity.
    destruct (decide (c' = c)); [| reflexivity ].
    destruct (Qlt_le_dec 50 q) as [Hlt|_]; [| reflexivity ].
    assert (Ht : exceeds 50 (Num q) = true) by (apply exceeds_spec; eauto).
    congruence.
Qed.

(** *** The ranking on a combined table *)

Lemma retained_rows_str jb jg df :
  Forall (fun r => is_str (cell jb (snd r)) = true) (rows df) ->
  Forall (fun r => is_str (cell jb (snd r)) = true) (retained_rows jg df).
Proof.
  intros H. apply List.Forall_forall. intros r Hr.
  rewrite List.Forall_forall in H. apply H. eapply retained_rows_subset; eauto.
Qed.

Lemma group_means_keys jb jg df :
  List.map fst (group_means jb jg df)
  = group_keys jb (mkDataFrame (columns df) (retained_rows jg df)).
Proof. unfold group_means. cbv zeta. rewrite map_map. cbn. apply map_id. Qed.

Lemma group_means_In jb jg df k m :
  Forall (fun r => is_str (cell jb (snd r)) = true) (rows df) ->
  In (k, m) (group_means jb jg df) <->
  exists c, k = Str c /\
            (exists r, In r (retained_rows jg df) /\ cell jb (snd r) = Str c) /\
            m = entity_mean jb jg df c.
Proof.
  intros Hstr.
  pose proof (group_keys_spec jb (mkDataFrame (columns df) (retained_rows jg df))
                (retained_rows_str jb jg df Hstr)) as [_ Hkeys].
  unfold group_means. cbv zeta. rewrite in_map_iff. split.
  - intros (key & Heq & Hkey). inversion Heq; subst.
    apply Hkeys in Hkey. destruct Hkey as (c & -> & Hr).
    exists c. split; [ reflexivity |]. split; [ exact Hr | reflexivity ].
  - intros (c & -> & Hr & ->). exists (Str c). split; [ reflexivity |].
    apply Hkeys. eauto.
Qed.

Lemma group_means_num jb jg df :
  Forall (fun r => is_str (cell jb (snd r)) = true) (rows df) ->
  Forall is_num_item (group_means jb jg df).
Proof.
  intros Hstr. apply List.Forall_forall. intros [k m] Hin.
  apply (group_means_In _ _ _ _ _ Hstr) in Hin.
  destruct Hin as (c & -> & (r & Hr & Hc) & ->).
  destruct (mean_spec _ (entity_ghis_nonempty _ _ _ _ _ Hr Hc)) as (q & Hq & _).
  unfold is_num_item, entity_mean. cbn [snd]. rewrite Hq. split; reflexivity.
Qed.

Lemma ranking_present sort df jb jg :
  col_pos "Country" (columns df) = Some jb ->
  col_pos "GHI" (columns df) = Some jg ->
  Forall (fun r => is_str (cell jg (snd r)) = false) (rows df) ->
  Exists (fun r => exceeds 50 (cell jg (snd r)) = true) (rows df) ->
  exists ranking,
    create_ghi_ranking_table sort df = Ok ranking /\
    columns ranking = ["Country"; ranking_column] /\
    rows ranking
    = combine (ranks (length (sort (group_means jb jg df))))
        (List.map (fun it => [fst it; snd it]) (sort (group_means jb jg df))) /\
    ranking_entries ranking = sort (group_means jb jg df).
Proof.
  intros Hb Hg Hnum Hex.
  assert (Hret : retained_rows jg df <> []).
  { apply List.Exists_exists in Hex. destruct Hex as (r & Hr & Hgt).
    intros E. assert (Hin : In r (retained_rows jg df)).
    { apply filter_In. split; assumption. }
    rewrite E in Hin. destruct Hin. }
  assert (He : df_empty df = false).
  { unfold df_empty. destruct (columns df); [ discriminate |].
    destruct (rows df); [| reflexivity ]. now contradiction Hret. }
  rewrite (ranking_run sort df jg He Hg Hnum), Hb.
  destruct (retained_rows jg df) as [|r0 rest] eqn:Er; [ congruence |].
  cbv zeta. eexists. split; [ reflexivity |].
  split; [ reflexivity |]. split; [ reflexivity |].
  unfold ranking_entries. cbn [rows]. apply ranking_entries_rows.
Qed.

(** C1.  On a combined table (its [Country] cells are entity names) with a
    numeric GHI column and at least one row above 50, the ranking is built
    from exactly the rows whose GHI is strictly above 50: it has one entry
    per entity that has such a row, and the entry's value is the arithmetic
    mean (sum over count) of the GHI of that entity's rows above 50; a row
    whose GHI is 50 or less, or missing, does not count. *)
Theorem ranking_is_mean_of_rows_above_threshold
    (sort : list (value * value) -> list (value * value))
    (df : DataFrame) (jb jg : nat) :
  sorts_descending sort ->
  col_pos "Country" (columns df) = Some jb ->
  col_pos "GHI" (columns df) = Some jg ->
  Forall (fun r => is_str (cell jb (snd r)) = true) (rows df) ->
  Forall (fun r => is_str (cell jg (snd r)) = false) (rows df) ->
  Exists (fun r => exceeds 50 (cell jg (snd r)) = true) (rows df) ->
  exists ranking,
    create_ghi_ranking_table sort df = Ok ranking /\
    columns ranking = ["Country"; ranking_column] /\
    (forall r,
       In r (retained_rows jg df) <->
       In r (rows df) /\ exists q, cell jg (snd r) = Num q /\ (50 < q)%Q) /\
    List.NoDup (List.map fst (ranking_entries ranking)) /\
    (forall k m,
       In (k, m) (ranking_entries ranking) <->
       exists c,
         k = Str c /\
         (exists r, In r (retained_rows jg df) /\ cell jb (snd r) = Str c) /\
         m = entity_mean jb jg df c) /\
    (forall c r,
       In r (retained_rows jg df) -> cell jb (snd r) = Str c ->
       let ghis := spec_ghis_above_50 jb jg df c in
       exists q,
         entity_mean jb jg df c = Num q /\
         (q == Qsum ghis / inject_Z (Z.of_nat (length ghis)))%Q).
Proof.
  intros Hsort Hb Hg Hstr Hnum Hex.
  destruct (ranking_present sort df jb jg Hb Hg Hnum Hex)
    as (ranking & Hrun & Hcols & _ & Hentries).
  exists ranking. split; [ exact Hrun |]. split; [ exact Hcols |].
  split; [ apply retained_rows_spec |].
  rewrite Hentries. destruct (Hsort (group_means jb jg df)) as [Hperm _].
  split; [| split ].
  - eapply Permutation_NoDup.
    + apply Permutation_map. symmetry. exact Hperm.
    + rewrite group_means_keys.
      apply (group_keys_spec jb (mkDataFrame (columns df) (retained_rows jg df))).
      now apply retained_rows_str.
  - intros k m. rewrite <- (group_means_In jb jg df k m Hstr).
    split; apply Permutation_in; [ exact Hperm | now symmetry ].
  - intros c r Hr Hc. cbv zeta. rewrite <- entity_ghis_spec. apply mean_spec.
    eapply entity_ghis_nonempty; eauto.
Qed.

Lemma ranking_is_mean_of_rows_above_threshold_witness :
  create_ghi_ranking_table stable_sort_descending sample_table
  = Ok (mkDataFrame ["Country"; ranking_column] [(Num 1, [Str "X"; Num 70])]) /\
  spec_ghis_above_50 1 0 sample_table "X" = [60%Q; 80%Q] /\
  In (Str "X", Num 70)
    (ranking_entries
       (mkDataFrame ["Country"; ranking_column] [(Num 1, [Str "X"; Num 70])])).
Proof.
  destruct (ranking_is_mean_of_rows_above_threshold stable_sort_descending
              sample_table 1 0 stable_sort_is_descending)
    as (ranking & Hrun & _ & _ & _ & Hentries & _).
  - reflexivity.
  - reflexivity.
  - repeat constructor.
  - repeat constructor.
  - apply Exists_cons_tl, Exists_cons_hd. reflexivity.
  - split; [ reflexivity |]. split; [ reflexivity |].
    vm_compute in Hrun. inversion Hrun as [Hranking]. subst ranking.
    apply Hentries. exists "X". split; [ reflexivity |].
    split; [| reflexivity ].
    eexists. split; [ right; left; reflexivity | reflexivity ].
Defined.

(** A combined table has at most one group per entity. *)
Lemma group_means_short jb jg df :
  Forall (fun r => In (cell jb (snd r)) entity_names) (rows df) ->
  (length (group_means jb jg df) <= length default_country_list)%nat.
Proof.
  intros Hent.
  assert (Hstr : Forall (fun r => is_str (cell jb (snd r)) = true) (rows df)).
  { eapply List.Forall_impl; [| exact Hent ].
    intros r Hr. cbn beta in Hr. unfold entity_names in Hr.
    apply in_map_iff in Hr. destruct Hr as (name & <- & _). reflexivity. }
  rewrite <- (length_map fst), group_means_keys.
  destruct (group_keys_spec jb (mkDataFrame (columns df) (retained_rows jg df))
              (retained_rows_str jb jg df Hstr)) as [Hnodup Hkeys].
  rewrite <- (length_map Str default_country_list).
  apply List.NoDup_incl_length; [ exact Hnodup |].
  intros k Hk. apply Hkeys in Hk. destruct Hk as (c & -> & r & Hr & Hc).
  cbn [rows] in Hr. apply retained_rows_subset in Hr.
  rewrite List.Forall_forall in Hent. specialize (Hent r Hr).
  now rewrite Hc in Hent.
Qed.

(** C3.  On a combined table (its [Country] cells are names of the three
    entities) with a numeric GHI column and at least one row above 50, the
    ranking lists the (entity, mean) pairs of the groups in descending order
    of the mean; the entities of any one mean appear in the order in which
    groupby iterates over the group keys; and the index label of the entry
    at position [i] (counted from zero) is [i + 1].  The sort is asked to do
    what [nargsort] does on an array of at most three values; the order of
    the means and of the ties is then derived from that sort.  That every
    table the aggregator returns is such a combined table is
    [aggregator_rows_known_entity], further down. *)
Theorem ranking_is_sorted_and_ranked
    (sort : list (value * value) -> list (value * value))
    (df : DataFrame) (jb jg : nat) :
  sorts_as_nargsort sort ->
  col_pos "Country" (columns df) = Some jb ->
  col_pos "GHI" (columns df) = Some jg ->
  Forall (fun r => In (cell jb (snd r)) entity_names) (rows df) ->
  Forall (fun r => is_str (cell jg (snd r)) = false) (rows df) ->
  Exists (fun r => exceeds 50 (cell jg (snd r)) = true) (rows df) ->
  exists ranking,
    create_ghi_ranking_table sort df = Ok ranking /\
    Permutation (ranking_entries ranking) (group_means jb jg df) /\
    StronglySorted item_ge (ranking_entries ranking) /\
    (forall m,
       List.filter (has_value m) (ranking_entries ranking)
       = List.filter (has_value m) (group_means jb jg df)) /\
    List.map fst (group_means jb jg df)
    = group_keys jb (mkDataFrame (columns df) (retained_rows jg df)) /\
    (forall i r,
       nth_error (rows ranking) i = Some r ->
       fst r = Num (inject_Z (Z.of_nat (i + 1))) /\
       nth_error (ranking_entries ranking) i
       = Some (cell 0 (snd r), cell 1 (snd r))).
Proof.
  intros Hsort Hb Hg Hent Hnum Hex.
  assert (Hstr : Forall (fun r => is_str (cell jb (snd r)) = true) (rows df)).
  { eapply List.Forall_impl; [| exact Hent ].
    intros r Hr. cbn beta in Hr. unfold entity_names in Hr.
    apply in_map_iff in Hr. destruct Hr as (name & <- & _). reflexivity. }
  destruct (ranking_present sort df jb jg Hb Hg Hnum Hex)
    as (ranking & Hrun & _ & Hrows & Hentries).
  exists ranking. split; [ exact Hrun |].
  rewrite (Hsort _ (group_means_short jb jg df Hent)) in Hentries, Hrows.
  destruct (nargsort_descending_spec (group_means jb jg df)
              (group_means_num jb jg df Hstr)) as (Hperm & Hsorted & Hties).
  rewrite Hentries.
  split; [ exact Hperm |]. split; [ exact Hsorted |].
  split; [ exact Hties |]. split; [ apply group_means_keys |].
  intros i [l cells] Hi. split.
  - rewrite Hrows in Hi. unfold ranks in Hi.
    rewrite <- (length_map (fun it => [fst it; snd it])) in Hi.
    apply ranks_nth in Hi. cbn [fst]. rewrite Hi. do 3 f_equal. lia.
  - rewrite <- Hentries. unfold ranking_entries.
    rewrite nth_error_map, Hi. reflexivity.
Qed.

Lemma ranking_is_sorted_and_ranked_witness :
  group_means 1 0 tied_table
  = [(Str "Benin", Num 60); (Str "Sierra Leone", Num 90); (Str "Togo", Num 60)] /\
  create_ghi_ranking_table nargsort_descending tied_table
  = Ok (mkDataFrame ["Country"; ranking_column]
          [(Num 1, [Str "Sierra Leone"; Num 90]);
           (Num 2, [Str "Benin"; Num 60]);
           (Num 3, [Str "Togo"; Num 60])]) /\
  List.filter (has_value 60)
    (ranking_entries
       (mkDataFrame ["Country"; ranking_column]
          [(Num 1, [Str "Sierra Leone"; Num 90]);
           (Num 2, [Str "Benin"; Num 60]);
           (Num 3, [Str "Togo"; Num 60])]))
  = [(Str "Benin", Num 60); (Str "Togo", Num 60)].
Proof.
  split; [ reflexivity |].
  destruct (ranking_is_sorted_and_ranked nargsort_descending tied_table 1 0)
    as (ranking & Hrun & _ & _ & Hties & _).
  - intros items _. reflexivity.
  - reflexivity.
  - reflexivity.
  - repeat constructor; cbn; tauto.
  - repeat constructor.
  - apply Exists_cons_hd. reflexivity.
  - split; [ reflexivity |].
    vm_compute in Hrun. inversion Hrun as [Hranking]. subst ranking.
    exact (Hties 60%Q).
Defined.

(** * Further properties *)

(** ** Every row carries its entity *)

Lemma col_pos_lt col cols j : col_pos col cols = Some j -> (j < length cols)%nat.
Proof.
  intros H. apply col_pos_Some in H. apply nth_error_Some. congruence.
Qed.

Lemma remove_nth_length {A} (l : list A) :
  forall j, (j < length l)%nat -> S (length (remove_nth j l)) = length l.
Proof.
  induction l as [|a l IH]; intros j Hj; cbn in *; [ lia |].
  destruct j as [|j]; [ reflexivity |]. cbn. rewrite IH; [ reflexivity | lia ].
Qed.

Lemma col_pos_app_new col cols :
  col_pos col cols = None -> col_pos col (cols ++ [col]) = Some (length cols).
Proof.
  induction cols as [|c cols IH]; cbn; intros H.
  - now rewrite String.eqb_refl.
  - destruct (String.eqb col c); [ discriminate |].
    destruct (col_pos col cols); [ discriminate |]. now rewrite IH.
Qed.

Lemma cell_app_last cells v : cell (length cells) (cells ++ [v]) = v.
Proof. unfold cell. induction cells as [|x cells IH]; cbn; [ reflexivity | exact IH ]. Qed.

Lemma cell_insert cells v :
  forall j, (j < length cells)%nat -> cell j (<[j := v]> cells) = v.
Proof.
  unfold cell. induction cells as [|x cells IH]; intros j Hj; cbn in *; [ lia |].
  destruct j as [|j]; [ reflexivity |]. cbn. apply IH. lia.
Qed.

Lemma parse_file_rows_aligned path header records df0 :
  file_aligned (Csv header records) ->
  parse_file path "Timestamp" (Some (Csv header records)) = Ok df0 ->
  Forall (fun r => length (snd r) = length (columns df0)) (rows df0).
Proof.
  unfold parse_file. intros Hal Hp.
  destruct (col_pos "Timestamp" header) as [j|] eqn:Hj; [| discriminate ].
  inversion Hp; subst; clear Hp. cbn [rows columns].
  apply List.Forall_forall. intros r Hr. apply in_map_iff in Hr.
  destruct Hr as (rec & <- & Hrec). cbn [snd].
  cbn in Hal. rewrite List.Forall_forall in Hal. specialize (Hal rec Hrec).
  pose proof (col_pos_lt _ _ _ Hj) as Hlt.
  pose proof (remove_nth_length header j Hlt).
  pose proof (remove_nth_length rec j ltac:(lia)). lia.
Qed.

Lemma df_setitem_stamped df0 name :
  Forall (fun r => length (snd r) = length (columns df0)) (rows df0) ->
  stamped name (df_setitem df0 "Country" (Str name)).
Proof.
  intros Hal r Hr. unfold df_setitem in *.
  rewrite List.Forall_forall in Hal.
  destruct (col_pos "Country" (columns df0)) as [j|] eqn:Hc; cbn [rows columns] in *.
  - exists j. split; [ exact Hc |].
    apply in_map_iff in Hr. destruct Hr as (r0 & <- & Hr0). cbn [snd].
    apply cell_insert. rewrite (Hal r0 Hr0). eapply col_pos_lt; eauto.
  - exists (length (columns df0)). split; [ now apply col_pos_app_new |].
    apply in_map_iff in Hr. destruct Hr as (r0 & <- & Hr0). cbn [snd].
    rewrite <- (Hal r0 Hr0). apply cell_app_last.
Qed.

Lemma stamped_empty name : stamped name pd_DataFrame.
Proof. intros r []. Qed.

Lemma after_read_stamped name filename path w c pre df c' evs :
  world_aligned w ->
  after_read name filename path w c pre = (Ok df, c', evs) -> stamped name df.
Proof.
  intros Hw. unfold after_read.
  destruct (fs w (abspath w path)) as [[e|header records]|] eqn:Hf.
  - unfold parse_file. destruct e; intros H; inversion H; apply stamped_empty.
  - destruct (parse_file path "Timestamp" (Some (Csv header records)))
      as [df0|e] eqn:Hp.
    + intros H; inversion H; subst. apply df_setitem_stamped.
      eapply parse_file_rows_aligned; [| exact Hp ]. exact (Hw _ _ Hf).
    + destruct e; intros H; inversion H; apply stamped_empty.
  - unfold parse_file. intros H; inversion H; apply stamped_empty.
Qed.

Lemma loader_body_stamped name w c df evs :
  world_aligned w ->
  load_country_data_wrapped name w c = (Ok df, c, evs) -> stamped name df.
Proof.
  intros Hw. destruct (filename_map !! name) as [filename|] eqn:Hf.
  - rewrite (loader_body_run _ _ _ _ Hf). cbv zeta.
    destruct (fs w _); [ now apply after_read_stamped |].
    destruct (fs w _); [ now apply after_read_stamped |].
    intros H; inversion H; apply stamped_empty.
  - rewrite (loader_body_unknown _ _ _ Hf).
    intros H; inversion H; apply stamped_empty.
Qed.

Lemma load_country_data_stamped name w c df c' evs :
  world_aligned w -> caches_stamped c ->
  load_country_data name w c = (Ok df, c', evs) ->
  stamped name df /\ caches_stamped c'.
Proof.
  intros Hw Hc Hrun.
  destruct (country_cache c !! name) as [[d msgs]|] eqn:Hl.
  - rewrite (load_country_data_hit _ _ _ _ _ Hl) in Hrun. inversion Hrun; subst.
    split; [ eapply Hc; eauto | exact Hc ].
  - destruct (load_country_data_miss name w c Hl) as (d & evs' & Hb & Hd).
    rewrite Hd in Hrun. inversion Hrun; subst.
    pose proof (loader_body_stamped _ _ _ _ _ Hw Hb) as Hs.
    split; [ exact Hs |].
    intros k dk mk Hk. cbn in Hk.
    destruct (decide (name = k)) as [->|Hne].
    + rewrite lookup_insert_eq in Hk. now inversion Hk; subst.
    + rewrite lookup_insert_ne in Hk by exact Hne. eapply Hc; eauto.
Qed.

Lemma mapM_load_stamped country_list :
  forall w c dfs c' evs,
    world_aligned w -> caches_stamped c ->
    mapM load_country_data country_list w c = (Ok dfs, c', evs) ->
    Forall2 stamped country_list dfs /\ caches_stamped c'.
Proof.
  induction country_list as [|country rest IH]; intros w c dfs c' evs Hw Hc Hrun.
  - inversion Hrun; subst. split; [ constructor | exact Hc ].
  - cbn [mapM] in Hrun. unfold_M.
    destruct (load_country_data country w c) as [[[df|e] c1] ev1] eqn:H1;
      [| discriminate ].
    destruct (load_country_data_stamped _ _ _ _ _ _ Hw Hc H1) as [Hs Hc1].
    destruct (mapM load_country_data rest w c1) as [[[ds|e] c2] ev2] eqn:H2;
      [| discriminate ].
    destruct (IH _ _ _ _ _ Hw Hc1 H2) as [Hall Hc2].
    inversion Hrun; subst. split; [ now constructor | exact Hc2 ].
Qed.

Lemma caches_stamped_none : caches_stamped no_caches.
Proof. intros name df msgs H. cbn in H. now rewrite lookup_empty in H. Qed.

Lemma sample_world_aligned : world_aligned sample_world.
Proof.
  intros path f. unfold sample_world. cbn [fs].
  destruct (String.eqb path _); [ intros H; inversion H; repeat constructor |].
  destruct (String.eqb path _); [ intros H; inversion H; repeat constructor |].
  discriminate.
Qed.

(** X1.  In the table the aggregator returns, every row has in its
    [Country] cell the name of one of the requested entities. *)
Theorem aggregator_rows_carry_requested_entity
    (country_list : list string) (w : World) (c c' : Caches)
    (combined : DataFrame) (evs : list event) :
  world_aligned w -> caches_stamped c ->
  load_all_countries_data_wrapped country_list w c = (Ok combined, c', evs) ->
  forall r, In r (rows combined) ->
    exists jb name,
      col_pos "Country" (columns combined) = Some jb /\
      In name country_list /\
      cell jb (snd r) = Str name.
Proof.
  intros Hw Hc Hrun r Hr.
  destruct (aggregator_run country_list w c)
    as (dfs & c1 & ev1 & Hm & _ & Hshape).
  rewrite Hshape in Hrun. inversion Hrun; subst; clear Hrun.
  destruct (mapM_load_stamped _ _ _ _ _ _ Hw Hc Hm) as [Hall _].
  destruct (List.filter (fun df => negb (df_empty df)) dfs)
    as [|d0 rest] eqn:Es; [ destruct Hr |].
  set (cols := union_columns [] (d0 :: rest)).
  change (In r (flat_map
                  (fun df =>
                     List.map
                       (fun r => (fst r, reindex_cells (columns df) cols (snd r)))
                       (rows df))
                  (d0 :: rest))) in Hr.
  apply in_flat_map in Hr. destruct Hr as (df & Hdf & Hr).
  apply in_map_iff in Hr. destruct Hr as (r0 & <- & Hr0). cbn [snd].
  assert (Hin : In df dfs).
  { apply (proj1 (filter_In (fun df => negb (df_empty df)) df dfs)).
    rewrite Es. exact Hdf. }
  assert (Hname : exists name, In name country_list /\ stamped name df).
  { clear -Hall Hin. induction Hall as [|n d l ds Hs Hall IH]; [ destruct Hin |].
    destruct Hin as [->|Hin]; [ exists n; split; [ now left | exact Hs ] |].
    destruct (IH Hin) as (name & Hn & Hs'). exists name. split; [ now right | exact Hs' ]. }
  destruct Hname as (name & Hn & Hs).
  destruct (Hs r0 Hr0) as (j & Hj & Hcell).
  assert (Hcol : In "Country" cols).
  { apply (union_columns_incl _ [] df); [ exact Hdf |].
    eapply nth_error_In, col_pos_Some, Hj. }
  destruct (col_pos_In _ _ Hcol) as [jb Hjb].
  exists jb, name. split; [ exact Hjb |]. split; [ exact Hn |].
  rewrite (reindex_cells_cell _ _ _ _ _ Hjb), Hj. exact Hcell.
Qed.

Lemma aggregator_rows_carry_requested_entity_witness :
  exists combined c' evs,
    load_all_countries_data_wrapped default_country_list sample_world no_caches
    = (Ok combined, c', evs) /\
    forall r, In r (rows combined) ->
      exists jb name,
        col_pos "Country" (columns combined) = Some jb /\
        In name default_country_list /\ cell jb (snd r) = Str name.
Proof.
  destruct (aggregator_run default_country_list sample_world no_caches)
    as (dfs & c' & evs & _ & _ & Hrun).
  eexists _, c', evs. split; [ exact Hrun |].
  exact (aggregator_rows_carry_requested_entity default_country_list sample_world
           no_caches c' _ evs sample_world_aligned caches_stamped_none Hrun).
Defined.

(** ** The entities of a combined table *)

Lemma load_country_data_unknown_rows name w c df c' evs :
  country_cache_sound c ->
  load_country_data name w c = (Ok df, c', evs) ->
  filename_map !! name = None -> rows df = [].
Proof.
  intros Hs Hrun Hf.
  destruct (country_cache c !! name) as [[d msgs]|] eqn:Hc.
  - rewrite (load_country_data_hit _ _ _ _ _ Hc) in Hrun. inversion Hrun; subst.
    destruct (Hs _ _ _ Hc) as (w0 & c0 & evs0 & Hb & _).
    rewrite (loader_body_unknown _ _ _ Hf) in Hb. now inversion Hb.
  - destruct (load_country_data_miss name w c Hc) as (d & evs' & Hb & Hd).
    rewrite Hd in Hrun. inversion Hrun; subst.
    rewrite (loader_body_unknown _ _ _ Hf) in Hb. now inversion Hb.
Qed.

Lemma mapM_load_known country_list :
  forall w c dfs c' evs,
    world_aligned w -> caches_stamped c -> country_cache_sound c ->
    mapM load_country_data country_list w c = (Ok dfs, c', evs) ->
    forall df, In df dfs ->
      exists name,
        stamped name df /\ (filename_map !! name = None -> rows df = []).
Proof.
  induction country_list as [|country rest IH];
    intros w c dfs c' evs Hw Hc Hs Hrun df Hin.
  - inversion Hrun; subst. destruct Hin.
  - cbn [mapM] in Hrun. unfold_M.
    destruct (load_country_data country w c) as [[[d|e] c1] ev1] eqn:H1;
      [| discriminate ].
    destruct (load_country_data_stamped _ _ _ _ _ _ Hw Hc H1) as [Hst Hc1].
    pose proof (load_country_data_sound _ _ _ _ _ _ H1 Hs) as Hs1.
    destruct (mapM load_country_data rest w c1) as [[[ds|e] c2] ev2] eqn:H2;
      [| discriminate ].
    inversion Hrun; subst. destruct Hin as [<-|Hin].
    + exists country. split; [ exact Hst |].
      intros Hn. exact (load_country_data_unknown_rows _ _ _ _ _ _ Hs H1 Hn).
    + exact (IH _ _ _ _ _ Hw Hc1 Hs1 H2 df Hin).
Qed.

Lemma filename_map_known name :
  filename_map !! name <> None -> In (Str name) entity_names.
Proof.
  rewrite filename_map_lookup. unfold entity_names, default_country_list.
  destruct (decide (name = "Benin")) as [->|_]; [ intros _; cbn; tauto |].
  destruct (decide (name = "Sierra Leone")) as [->|_]; [ intros _; cbn; tauto |].
  destruct (decide (name = "Togo")) as [->|_]; [ intros _; cbn; tauto |].
  congruence.
Qed.

(** Every table the aggregator returns is a combined table in the sense of
    the ranking's statements: each row has the name of one of the three
    entities in its [Country] cell, whatever names were asked for. *)
Lemma aggregator_rows_known_entity
    (country_list : list string) (w : World) (c c' : Caches)
    (combined : DataFrame) (evs : list event) :
  world_aligned w -> caches_stamped c -> country_cache_sound c ->
  load_all_countries_data_wrapped country_list w c = (Ok combined, c', evs) ->
  forall r, In r (rows combined) ->
    exists jb,
      col_pos "Country" (columns combined) = Some jb /\
      In (cell jb (snd r)) entity_names.
Proof.
  intros Hw Hc Hs Hrun r Hr.
  destruct (aggregator_run country_list w c)
    as (dfs & c1 & ev1 & Hm & _ & Hshape).
  rewrite Hshape in Hrun. inversion Hrun; subst; clear Hrun.
  pose proof (mapM_load_known _ _ _ _ _ _ Hw Hc Hs Hm) as Hall.
  destruct (List.filter (fun df => negb (df_empty df)) dfs)
    as [|d0 rest] eqn:Es; [ destruct Hr |].
  set (cols := union_columns [] (d0 :: rest)).
  change (In r (flat_map
                  (fun df =>
                     List.map
                       (fun r => (fst r, reindex_cells (columns df) cols (snd r)))
                       (rows df))
                  (d0 :: rest))) in Hr.
  apply in_flat_map in Hr. destruct Hr as (df & Hdf & Hr).
  apply in_map_iff in Hr. destruct Hr as (r0 & <- & Hr0). cbn [snd].
  assert (Hin : In df dfs).
  { apply (proj1 (filter_In (fun df => negb (df_empty df)) df dfs)).
    rewrite Es. exact Hdf. }
  destruct (Hall df Hin) as (name & Hst & Hknown).
  destruct (Hst r0 Hr0) as (j & Hj & Hcell).
  assert (Hcol : In "Country" cols).
  { apply (union_columns_incl _ [] df); [ exact Hdf |].
    eapply nth_error_In, col_pos_Some, Hj. }
  destruct (col_pos_In _ _ Hcol) as [jb Hjb].
  exists jb. split; [ exact Hjb |].
  rewrite (reindex_cells_cell _ _ _ _ _ Hjb), Hj, Hcell.
  apply filename_map_known. intros Hnone.
  rewrite (Hknown Hnone) in Hr0. destruct Hr0.
Qed.

(** ** What the loader makes of a file *)

Lemma loader_body_resolved name filename w c path :
  filename_map !! name = Some filename ->
  resolved_path w filename = Some path ->
  exists pre,
    load_country_data_wrapped name w c = after_read name filename path w c pre /\
    st_messages pre = [] /\ count_reads pre = 0%nat.
Proof.
  intros Hf Hres. rewrite (loader_body_run _ _ _ _ Hf). cbv zeta.
  unfold resolved_path in Hres.
  destruct (fs w (abspath w (candidate_relative w filename))).
  - inversion Hres; subst. eexists. split; [ reflexivity | split; reflexivity ].
  - destruct (fs w (abspath w (candidate_root filename))); [| discriminate ].
    inversion Hres; subst. eexists. split; [ reflexivity | split; reflexivity ].
Qed.

Lemma df_setitem_rows_length df col v :
  length (rows (df_setitem df col v)) = length (rows df).
Proof.
  unfold df_setitem. destruct (col_pos col (columns df)); cbn; apply length_map.
Qed.

Lemma df_empty_rows df :
  columns df <> [] -> (df_empty df = true <-> rows df = []).
Proof.
  unfold df_empty. intros Hc. destruct (columns df); [ congruence |].
  destruct (rows df); split; congruence.
Qed.

Lemma st_messages_app a b : st_messages (a ++ b) = st_messages a ++ st_messages b.
Proof. unfold st_messages. apply omap_app. Qed.

(** X2.  When the path the loader settles on holds a table with a
    [Timestamp] column, the loader returns one row per record of the file
    and puts no message on the page; so the table it returns is empty
    exactly when the file has a header and no record. *)
Theorem loaded_table_has_one_row_per_record
    (name filename path : string) (w : World) (c : Caches)
    (header : list string) (records : list (list value)) :
  filename_map !! name = Some filename ->
  resolved_path w filename = Some path ->
  fs w (abspath w path) = Some (Csv header records) ->
  In "Timestamp" header ->
  exists df evs,
    load_country_data_wrapped name w c = (Ok df, c, evs) /\
    st_messages evs = [] /\
    length (rows df) = length records /\
    (df_empty df = true <-> records = []).
Proof.
  intros Hf Hres Hfile Hts.
  destruct (loader_body_resolved _ _ _ c _ Hf Hres) as (pre & -> & Hpre & _).
  unfold after_read, parse_file. rewrite Hfile.
  destruct (col_pos_In _ _ Hts) as [j ->].
  eexists _, _. split; [ reflexivity |].
  split; [ rewrite st_messages_app, Hpre; reflexivity |].
  assert (Hlen : length (rows (df_setitem
                                 (mkDataFrame (remove_nth j header)
                                    (List.map (fun r => (cell j r, remove_nth j r))
                                       records))
                                 "Country" (Str name))) = length records).
  { rewrite df_setitem_rows_length. cbn. apply length_map. }
  split; [ exact Hlen |].
  rewrite df_empty_rows.
  - rewrite <- length_zero_iff_nil, Hlen. apply length_zero_iff_nil.
  - intros E. pose proof (df_setitem_columns
                            (mkDataFrame (remove_nth j header)
                               (List.map (fun r => (cell j r, remove_nth j r))
                                  records)) "Country" (Str name)) as Hin.
    rewrite E in Hin. destruct Hin.
Qed.

Lemma loaded_table_has_one_row_per_record_witness :
  exists df evs,
    load_country_data_wrapped "Benin" header_only_world no_caches
    = (Ok df, no_caches, evs) /\
    st_messages evs = [] /\ df_empty df = true.
Proof.
  destruct (loaded_table_has_one_row_per_record "Benin" "benin_clean.csv"
              "data/benin_clean.csv" header_only_world no_caches
              ["Timestamp"; "GHI"] [])
    as (df & evs & Hrun & Hmsg & _ & Hempty);
    [ reflexivity | reflexivity | reflexivity | now left |].
  exists df, evs. split; [ exact Hrun |]. split; [ exact Hmsg |].
  now apply Hempty.
Defined.

(** X3.  A load that found no file is cached like any other: the first call
    tests the two candidate paths and reports the error; every later call
    for that entity, after any other calls and even once the file is there,
    returns the empty table with the same error message and looks at no
    path. *)
Theorem failed_load_stays_cached
    (name filename : string) (w : World) (c : Caches) :
  filename_map !! name = Some filename ->
  resolved_path w filename = None ->
  country_cache c !! name = None ->
  exists c1,
    load_country_data name w c
    = (Ok pd_DataFrame, c1,
       [EvExists (candidate_relative w filename);
        EvExists (candidate_root filename);
        EvStError (not_found_message filename)]) /\
    forall ks w',
      load_country_data name w' (run_calls ks c1)
      = (Ok pd_DataFrame, run_calls ks c1,
         [EvStError (not_found_message filename)]).
Proof.
  intros Hf Hres Hmiss.
  destruct (load_country_data_miss name w c Hmiss) as (df & evs & Hb & Hd).
  rewrite (loader_body_run _ _ _ _ Hf) in Hb. cbv zeta in Hb.
  unfold resolved_path in Hres.
  destruct (fs w (abspath w (candidate_relative w filename))); [ discriminate |].
  destruct (fs w (abspath w (candidate_root filename))); [ discriminate |].
  inversion Hb; subst; clear Hb.
  eexists. split; [ exact Hd |].
  intros ks w'.
  apply (load_country_data_hit name w' _ pd_DataFrame
           [not_found_message filename]).
  apply run_calls_keeps. cbn. apply lookup_insert_eq.
Qed.

Lemma failed_load_stays_cached_witness :
  exists c1 df,
    load_country_data "Benin" empty_world no_caches
    = (Ok pd_DataFrame, c1,
       [EvExists "/srv/app/../data/benin_clean.csv";
        EvExists "data/benin_clean.csv";
        EvStError (not_found_message "benin_clean.csv")]) /\
    load_country_data "Benin" sample_world c1
    = (Ok df, c1, [EvStError (not_found_message "benin_clean.csv")]) /\
    df = pd_DataFrame.
Proof.
  destruct (failed_load_stays_cached "Benin" "benin_clean.csv" empty_world
              no_caches) as (c1 & Hfirst & Hlater);
    [ reflexivity | reflexivity | reflexivity |].
  exists c1, pd_DataFrame. split; [ exact Hfirst |].
  split; [ exact (Hlater [] sample_world) | reflexivity ].
Defined.

(** ** The aggregator and its cache *)

Lemma load_all_entry country_list w c :
  exists df c1 evs1,
    load_all_countries_data country_list w c = (Ok df, c1, evs1) /\
    all_cache c1 !! country_list = Some (df, st_messages evs1).
Proof.
  unfold load_all_countries_data, st_cache_data.
  destruct (all_cache c !! country_list) as [[df msgs]|] eqn:Hc.
  - exists df, c, (List.map EvStError msgs).
    rewrite st_messages_replay. split; [ reflexivity | exact Hc ].
  - destruct (aggregator_run country_list w c) as (dfs & c' & evs & _ & _ & ->).
    eexists _, _, evs. split; [ reflexivity |]. cbn. apply lookup_insert_eq.
Qed.

Lemma run_calls_keeps_all ks :
  forall c k e,
    all_cache c !! k = Some e -> all_cache (run_calls ks c) !! k = Some e.
Proof.
  induction ks as [|[w [name|l]] ks IH]; intros c k e Hk; [ exact Hk | |].
  - apply IH. cbn.
    destruct (load_country_data name w c) as [[r c'] evs] eqn:Hrun.
    destruct (load_country_data_keeps _ _ _ _ _ _ Hrun) as [Ha _].
    cbn [fst snd]. now rewrite Ha.
  - apply IH. cbn.
    destruct (load_all_countries_data l w c) as [[r c'] evs] eqn:Hrun.
    now apply (load_all_keeps _ _ _ _ _ _ Hrun).
Qed.

(** X4.  The aggregator is cached by its entity list: after one call, every
    later call with the same list, after any other calls and whatever
    happens to the files, returns the same table, leaves the caches as they
    are and only replays the page messages of the first call. *)
Theorem cached_aggregate_is_computed_once
    (country_list : list string) (w : World) (c : Caches) :
  exists df c1 evs1,
    load_all_countries_data country_list w c = (Ok df, c1, evs1) /\
    forall ks w',
      load_all_countries_data country_list w' (run_calls ks c1)
      = (Ok df, run_calls ks c1, List.map EvStError (st_messages evs1)).
Proof.
  destruct (load_all_entry country_list w c) as (df & c1 & evs1 & Hrun & Hentry).
  exists df, c1, evs1. split; [ exact Hrun |].
  intros ks w'. unfold load_all_countries_data, st_cache_data.
  now rewrite (run_calls_keeps_all ks _ _ _ Hentry).
Qed.

Lemma fs_events_app a b : fs_events (a ++ b) = fs_events a ++ fs_events b.
Proof. unfold fs_events. apply List.filter_app. Qed.

Lemma mapM_all_hits country_list :
  forall w c,
    (forall name, In name country_list -> is_Some (country_cache c !! name)) ->
    exists dfs evs,
      mapM load_country_data country_list w c = (Ok dfs, c, evs) /\
      fs_events evs = [].
Proof.
  induction country_list as [|country rest IH]; intros w c Hall.
  - exists [], []. split; reflexivity.
  - destruct (Hall country) as [[df msgs] Hc]; [ now left |].
    destruct (IH w c) as (dfs & evs & Hm & Hfs); [ intros; apply Hall; now right |].
    cbn [mapM]. unfold_M.
    rewrite (load_country_data_hit _ _ _ _ _ Hc), Hm.
    eexists _, _. split; [ reflexivity |].
    rewrite !fs_events_app, fs_events_replay, Hfs. reflexivity.
Qed.

(** X5.  When every entity of the list is already in the loader's cache,
    the aggregator tests no path and reads no file, whether or not it has
    seen that very list before, and leaves the loader's cache as it is. *)
Theorem aggregate_of_cached_entities_reads_nothing
    (country_list : list string) (w : World) (c : Caches) :
  (forall name, In name country_list -> is_Some (country_cache c !! name)) ->
  exists df c' evs,
    load_all_countries_data country_list w c = (Ok df, c', evs) /\
    fs_events evs = [] /\
    country_cache c' = country_cache c.
Proof.
  intros Hall. unfold load_all_countries_data, st_cache_data.
  destruct (all_cache c !! country_list) as [[df msgs]|].
  - eexists _, _, _. split; [ reflexivity |].
    split; [ apply fs_events_replay | reflexivity ].
  - destruct (mapM_all_hits country_list w c Hall) as (dfs & evs & Hm & Hfs).
    destruct (aggregator_run country_list w c) as (dfs' & c' & evs' & Hm' & _ & ->).
    rewrite Hm in Hm'. inversion Hm'; subst.
    eexists _, _, _. split; [ reflexivity |]. split; [ exact Hfs | reflexivity ].
Qed.

Lemma aggregate_of_cached_entities_reads_nothing_witness :
  exists c1 df c2 evs,
    snd (fst (load_all_countries_data default_country_list sample_world no_caches))
    = c1 /\
    load_all_countries_data ["Togo"; "Benin"] empty_world c1 = (Ok df, c2, evs) /\
    fs_events evs = [].
Proof.
  destruct (load_all_countries_data default_country_list sample_world no_caches)
    as [[r c1] evs1] eqn:Hfirst.
  destruct (aggregate_of_cached_entities_reads_nothing ["Togo"; "Benin"]
              empty_world c1) as (df & c2 & evs & Hrun & Hfs & _).
  - vm_compute in Hfirst. inversion Hfirst; subst.
    intros name [<-|[<-|[]]]; vm_compute; eauto.
  - exists c1, df, c2, evs. split; [ reflexivity |]. split; assumption.
Defined.

Lemma count_reads_app a b : count_reads (a ++ b) = (count_reads a + count_reads b)%nat.
Proof. unfold count_reads. now rewrite List.filter_app, length_app. Qed.

Lemma count_exists_app a b :
  count_exists (a ++ b) = (count_exists a + count_exists b)%nat.
Proof. unfold count_exists. now rewrite List.filter_app, length_app. Qed.

Lemma count_replay msgs :
  count_reads (List.map EvStError msgs) = 0%nat /\
  count_exists (List.map EvStError msgs) = 0%nat.
Proof.
  unfold count_reads, count_exists.
  induction msgs as [|m msgs IH]; cbn; [ split; reflexivity | exact IH ].
Qed.

Lemma loader_body_counts name w c r c' evs :
  load_country_data_wrapped name w c = (r, c', evs) ->
  (count_reads evs <= 1)%nat /\ (count_exists evs <= 2)%nat.
Proof.
  destruct (filename_map !! name) as [filename|] eqn:Hf.
  - rewrite (loader_body_run _ _ _ _ Hf). cbv zeta. unfold after_read.
    repeat match goal with
           | |- context [match ?x with _ => _ end] => destruct x
           end; intros Hrun; inversion Hrun; subst; cbn; lia.
  - rewrite (loader_body_unknown _ _ _ Hf). intros Hrun; inversion Hrun. cbn. lia.
Qed.

Lemma load_country_data_counts name w c r c' evs :
  load_country_data name w c = (r, c', evs) ->
  (count_reads evs <= 1)%nat /\ (count_exists evs <= 2)%nat.
Proof.
  intros Hrun.
  destruct (country_cache c !! name) as [[d msgs]|] eqn:Hl.
  - rewrite (load_country_data_hit _ _ _ _ _ Hl) in Hrun. inversion Hrun; subst.
    destruct (count_replay msgs) as [-> ->]. lia.
  - destruct (load_country_data_miss name w c Hl) as (d & evs' & Hb & Hd).
    rewrite Hd in Hrun. inversion Hrun; subst.
    eapply loader_body_counts; eauto.
Qed.

Lemma mapM_load_counts country_list :
  forall w c r c' evs,
    mapM load_country_data country_list w c = (r, c', evs) ->
    (count_reads evs <= length country_list)%nat /\
    (count_exists evs <= 2 * length country_list)%nat.
Proof.
  induction country_list as [|country rest IH]; intros w c r c' evs Hrun.
  - inversion Hrun. cbn. lia.
  - cbn [mapM] in Hrun. unfold_M.
    destruct (load_country_data country w c) as [[r1 c1] ev1] eqn:H1.
    destruct (load_country_data_counts _ _ _ _ _ _ H1) as [Hr1 He1].
    destruct r1 as [df|e]; [| inversion Hrun; subst; cbn [length]; lia ].
    destruct (mapM load_country_data rest w c1) as [[r2 c2] ev2] eqn:H2.
    destruct (IH _ _ _ _ _ H2) as [Hr2 He2].
    destruct r2 as [ds|e]; inversion Hrun; subst;
      rewrite ?count_reads_app, ?count_exists_app; cbn [length];
      assert (count_reads (@nil event) = 0%nat) by reflexivity;
      assert (count_exists (@nil event) = 0%nat) by reflexivity; lia.
Qed.

(** X6.  For a list of n entities the aggregator reads at most n files and
    tests at most 2n paths. *)
Theorem aggregator_touches_few_files
    (country_list : list string) (w : World) (c : Caches) :
  forall r c' evs,
    load_all_countries_data country_list w c = (r, c', evs) ->
    (count_reads evs <= length country_list)%nat /\
    (count_exists evs <= 2 * length country_list)%nat.
Proof.
  intros r c' evs. unfold load_all_countries_data, st_cache_data.
  destruct (all_cache c !! country_list) as [[df msgs]|].
  - intros Hrun. inversion Hrun; subst.
    destruct (count_replay msgs) as [-> ->]. lia.
  - destruct (aggregator_run country_list w c) as (dfs & c1 & ev1 & Hm & _ & ->).
    intros Hrun. inversion Hrun; subst.
    eapply mapM_load_counts; eauto.
Qed.

Lemma aggregator_touches_few_files_witness :
  exists r c' evs,
    load_all_countries_data default_country_list sample_world no_caches
    = (r, c', evs) /\
    (count_reads evs <= 3)%nat /\ (count_exists evs <= 6)%nat.
Proof.
  destruct (load_all_countries_data default_country_list sample_world no_caches)
    as [[r c'] evs] eqn:Hrun.
  exists r, c', evs. split; [ reflexivity |].
  exact (aggregator_touches_few_files default_country_list sample_world no_caches
           r c' evs Hrun).
Defined.

Lemma mapM_load_app l1 :
  forall l2 w c dfs1 c1 ev1 dfs2 c2 ev2,
    mapM load_country_data l1 w c = (Ok dfs1, c1, ev1) ->
    mapM load_country_data l2 w c1 = (Ok dfs2, c2, ev2) ->
    mapM load_country_data (l1 ++ l2) w c = (Ok (dfs1 ++ dfs2), c2, ev1 ++ ev2).
Proof.
  induction l1 as [|country rest IH]; intros l2 w c dfs1 c1 ev1 dfs2 c2 ev2 H1 H2.
  - inversion H1; subst. exact H2.
  - cbn [mapM app] in *. unfold_M.
    destruct (load_country_data country w c) as [[[df|e] c0] ev0]; [| discriminate ].
    destruct (mapM load_country_data rest w c0) as [[[ds|e] c3] ev3] eqn:Hrest;
      [| discriminate ].
    inversion H1; subst; clear H1.
    rewrite (IH _ _ _ _ _ _ _ _ _ Hrest H2).
    rewrite !app_nil_r, <- app_assoc. reflexivity.
Qed.

Lemma aggregate_index (dfs : list DataFrame) :
  df_index
    match dfs with
    | [] => pd_DataFrame
    | d :: l =>
        let surviving := d :: l in
        mkDataFrame (union_columns [] surviving)
          (flat_map
             (fun df =>
                List.map
                  (fun r => (fst r,
                             reindex_cells (columns df)
                               (union_columns [] surviving) (snd r)))
                  (rows df))
             surviving)
    end
  = flat_map df_index dfs.
Proof.
  destruct dfs as [|d rest]; [ reflexivity |].
  cbv zeta. unfold df_index at 1. cbn [rows]. apply concat_index.
Qed.

(** X7.  Aggregating a list followed by another is aggregating the first
    and then, with the caches that leaves, the second: the events are those
    of the two runs in turn, the caches are those after the second run, and
    the index labels of the combined table are those of the first table
    followed by those of the second. *)
Theorem aggregate_of_appended_lists
    (l1 l2 : list string) (w : World) (c : Caches) :
  exists d1 c1 e1 d2 c2 e2 d,
    load_all_countries_data_wrapped l1 w c = (Ok d1, c1, e1) /\
    load_all_countries_data_wrapped l2 w c1 = (Ok d2, c2, e2) /\
    load_all_countries_data_wrapped (l1 ++ l2) w c = (Ok d, c2, e1 ++ e2) /\
    df_index d = df_index d1 ++ df_index d2.
Proof.
  destruct (aggregator_run l1 w c) as (dfs1 & c1 & e1 & Hm1 & _ & Hr1).
  destruct (aggregator_run l2 w c1) as (dfs2 & c2 & e2 & Hm2 & _ & Hr2).
  destruct (aggregator_run (l1 ++ l2) w c) as (dfs & c' & e & Hm & _ & Hr).
  rewrite (mapM_load_app _ _ _ _ _ _ _ _ _ _ Hm1 Hm2) in Hm.
  injection Hm as Hd Hc He. subst dfs c' e.
  eexists _, c1, e1, _, c2, e2, _.
  split; [ exact Hr1 |]. split; [ exact Hr2 |]. split; [ exact Hr |].
  rewrite !aggregate_index, List.filter_app. apply flat_map_app.
Qed.

(** ** Tables with the same columns *)

Lemma reindex_cells_same cols :
  List.NoDup cols ->
  forall cells, length cells = length cols -> reindex_cells cols cols cells = cells.
Proof.
  unfold reindex_cells.
  induction 1 as [|c cols Hnin Hnd IH]; intros cells Hlen.
  - destruct cells; [ reflexivity | discriminate ].
  - destruct cells as [|x cells]; [ discriminate |].
    cbn [List.map col_pos]. rewrite String.eqb_refl. f_equal.
    etransitivity; [| apply (IH cells); cbn in Hlen; lia ].
    apply map_ext_in. intros c0 Hc0.
    assert (Hne : String.eqb c0 c = false).
    { apply String.eqb_neq. intros ->. contradiction. }
    rewrite Hne. destruct (col_pos c0 cols); reflexivity.
Qed.

Lemma filter_known_columns cols :
  List.filter (fun c => negb (existsb (String.eqb c) cols)) cols = [].
Proof.
  apply filter_nil_Forall. apply List.Forall_forall. intros c Hc.
  assert (E : existsb (String.eqb c) cols = true).
  { apply existsb_exists. exists c. split; [ exact Hc | apply String.eqb_refl ]. }
  now rewrite E.
Qed.

Lemma union_columns_same cols dfs :
  Forall (fun df => columns df = cols) dfs -> union_columns cols dfs = cols.
Proof.
  induction 1 as [|df dfs Hdf _ IH]; [ reflexivity |].
  cbn [union_columns]. rewrite Hdf, filter_known_columns, app_nil_r. exact IH.
Qed.

Lemma union_columns_first cols df dfs :
  columns df = cols -> Forall (fun df => columns df = cols) dfs ->
  union_columns [] (df :: dfs) = cols.
Proof.
  intros Hdf Hall.
  assert (E : List.filter (fun c => negb (existsb (String.eqb c) [])) cols = cols).
  { clear. induction cols as [|c cols IH]; [ reflexivity |].
    change (c :: List.filter (fun c => negb (existsb (String.eqb c) [])) cols
            = c :: cols).
    now rewrite IH. }
  change (union_columns [] (df :: dfs))
    with (union_columns
            (List.filter (fun c => negb (existsb (String.eqb c) [])) (columns df))
            dfs).
  rewrite Hdf, E. now apply union_columns_same.
Qed.

Lemma flat_map_ext_In {A B} (f g : A -> list B) l :
  (forall a, In a l -> f a = g a) -> flat_map f l = flat_map g l.
Proof.
  induction l as [|a l IH]; intros H; [ reflexivity |].
  cbn. rewrite (H a) by now left. rewrite IH; [ reflexivity |].
  intros; apply H; now right.
Qed.

(** X8.  When the tables that survive all have the same column labels,
    without repetition and with one cell per label in every row, the
    combined table has those labels and its rows are the rows of the
    tables, one table after the other, unchanged. *)
Theorem aggregate_of_same_columns
    (country_list : list string) (w : World) (c c' : Caches)
    (dfs : list DataFrame) (evs : list event) (cols : list string) :
  mapM load_country_data country_list w c = (Ok dfs, c', evs) ->
  let surviving := List.filter (fun df => negb (df_empty df)) dfs in
  surviving <> [] ->
  List.NoDup cols ->
  Forall (fun df =>
            columns df = cols /\
            Forall (fun r => length (snd r) = length cols) (rows df))
    surviving ->
  load_all_countries_data_wrapped country_list w c
  = (Ok (mkDataFrame cols (flat_map rows surviving)), c', evs).
Proof.
  intros Hm surviving Hne Hnd Hall.
  destruct (aggregator_run country_list w c) as (dfs' & c1 & ev1 & Hm' & _ & ->).
  rewrite Hm in Hm'. injection Hm' as <- <- <-. fold surviving.
  destruct surviving as [|d rest] eqn:Es; [ congruence |].
  cbv zeta.
  assert (Hcols : union_columns [] (d :: rest) = cols).
  { apply List.Forall_cons_iff in Hall. destruct Hall as [[Hd _] Hrest].
    apply union_columns_first; [ exact Hd |].
    eapply List.Forall_impl; [| exact Hrest ]. now intros df [H _]. }
  rewrite Hcols. do 4 f_equal.
  apply flat_map_ext_In. intros df Hdf.
  rewrite List.Forall_forall in Hall. destruct (Hall df Hdf) as [Hc Hrows].
  rewrite Hc. rewrite <- (map_id (rows df)) at 2.
  apply map_ext_in. intros [l cells] Hr. cbn [fst snd]. f_equal.
  apply reindex_cells_same; [ exact Hnd |].
  rewrite List.Forall_forall in Hrows. exact (Hrows _ Hr).
Qed.

Lemma aggregate_of_same_columns_witness :
  exists c' evs,
    load_all_countries_data_wrapped ["Benin"; "Atlantis"; "Benin"] sample_world
      no_caches
    = (Ok (mkDataFrame ["GHI"; "Country"]
             [(Str "2021-08-09 00:01", [Num 10; Str "Benin"]);
              (Str "2021-08-09 00:02", [Num 60; Str "Benin"]);
              (Str "2021-08-09 00:01", [Num 10; Str "Benin"]);
              (Str "2021-08-09 00:02", [Num 60; Str "Benin"])]), c', evs).
Proof.
  destruct (mapM load_country_data ["Benin"; "Atlantis"; "Benin"] sample_world
              no_caches) as [[r c'] evs] eqn:Hm.
  exists c', evs.
  assert (Hr : exists dfs, r = Ok dfs /\
                 dfs = [mkDataFrame ["GHI"; "Country"]
                          [(Str "2021-08-09 00:01", [Num 10; Str "Benin"]);
                           (Str "2021-08-09 00:02", [Num 60; Str "Benin"])];
                        pd_DataFrame;
                        mkDataFrame ["GHI"; "Country"]
                          [(Str "2021-08-09 00:01", [Num 10; Str "Benin"]);
                           (Str "2021-08-09 00:02", [Num 60; Str "Benin"])]]).
  { vm_compute in Hm. inversion Hm. eexists. split; reflexivity. }
  destruct Hr as (dfs & -> & Hdfs).
  rewrite (aggregate_of_same_columns _ _ _ _ _ _ ["GHI"; "Country"] Hm).
  - subst dfs. reflexivity.
  - subst dfs. discriminate.
  - repeat constructor; cbn; intuition discriminate.
  - subst dfs. repeat constructor.
Defined.

(** ** More on the ranking *)

Lemma inject_Z_succ n :
  (inject_Z (Z.of_nat (S n)) == inject_Z (Z.of_nat n) + 1)%Q.
Proof. rewrite Nat2Z.inj_succ, <- Z.add_1_r, inject_Z_plus. reflexivity. Qed.

Lemma Qsum_above (t : Q) qs :
  Forall (fun q => (t < q)%Q) qs ->
  (t * inject_Z (Z.of_nat (length qs)) <= Qsum qs)%Q.
Proof.
  induction 1 as [|q qs Hq _ IH].
  - cbn. rewrite Qmult_0_r. apply Qle_refl.
  - cbn [length Qsum fold_right]. rewrite inject_Z_succ, Qmult_plus_distr_r, Qmult_1_r.
    rewrite (Qplus_comm q). apply Qplus_le_compat; [ exact IH |].
    now apply Qlt_le_weak.
Qed.

Lemma mean_above (t : Q) qs :
  qs <> [] -> Forall (fun q => (t < q)%Q) qs ->
  exists q, mean qs = Num q /\ (t < q)%Q.
Proof.
  intros Hne Hall. destruct qs as [|a qs]; [ congruence |].
  eexists. split; [ reflexivity |]. rewrite Qred_correct.
  apply List.Forall_cons_iff in Hall. destruct Hall as [Ha Hqs].
  apply Qlt_shift_div_l.
  - change 0%Q with (inject_Z 0). rewrite <- Zlt_Qlt. cbn [length]. lia.
  - cbn [length Qsum fold_right].
    rewrite inject_Z_succ, Qmult_plus_distr_r, Qmult_1_r.
    rewrite (Qplus_comm (t * _)).
    apply Qplus_lt_le_compat; [ exact Ha | now apply Qsum_above ].
Qed.

Lemma spec_ghis_above jb jg df c :
  Forall (fun q => (50 < q)%Q) (spec_ghis_above_50 jb jg df c).
Proof.
  apply List.Forall_forall. intros q Hq. unfold spec_ghis_above_50 in Hq.
  apply in_flat_map in Hq. destruct Hq as (r & _ & Hq).
  destruct (cell jb (snd r)); try destruct Hq.
  destruct (cell jg (snd r)) as [|p|t]; try destruct Hq.
  destruct (decide (s = c)); [| destruct Hq ].
  destruct (Qlt_le_dec 50 p) as [Hlt|_]; [| destruct Hq ].
  destruct Hq as [<-|[]]. exact Hlt.
Qed.

(** X9.  Every mean listed in the ranking is a number strictly above 50. *)
Theorem ranking_means_exceed_threshold
    (sort : list (value * value) -> list (value * value))
    (df : DataFrame) (jb jg : nat) :
  sorts_descending sort ->
  col_pos "Country" (columns df) = Some jb ->
  col_pos "GHI" (columns df) = Some jg ->
  Forall (fun r => is_str (cell jb (snd r)) = true) (rows df) ->
  Forall (fun r => is_str (cell jg (snd r)) = false) (rows df) ->
  Exists (fun r => exceeds 50 (cell jg (snd r)) = true) (rows df) ->
  exists ranking,
    create_ghi_ranking_table sort df = Ok ranking /\
    forall k m,
      In (k, m) (ranking_entries ranking) -> exists q, m = Num q /\ (50 < q)%Q.
Proof.
  intros Hsort Hb Hg Hstr Hnum Hex.
  destruct (ranking_present sort df jb jg Hb Hg Hnum Hex)
    as (ranking & Hrun & _ & _ & Hentries).
  exists ranking. split; [ exact Hrun |].
  intros k m Hin. rewrite Hentries in Hin.
  destruct (Hsort (group_means jb jg df)) as [Hperm _].
  apply (Permutation_in _ Hperm) in Hin.
  apply (group_means_In _ _ _ _ _ Hstr) in Hin.
  destruct Hin as (c & -> & (r & Hr & Hc) & ->).
  unfold entity_mean. apply mean_above.
  - eapply entity_ghis_nonempty; eauto.
  - rewrite entity_ghis_spec. apply spec_ghis_above.
Qed.

Lemma ranking_means_exceed_threshold_witness :
  exists ranking,
    create_ghi_ranking_table stable_sort_descending tied_table = Ok ranking /\
    forall k m,
      In (k, m) (ranking_entries ranking) -> exists q, m = Num q /\ (50 < q)%Q.
Proof.
  apply (ranking_means_exceed_threshold stable_sort_descending tied_table 1 0
           stable_sort_is_descending).
  - reflexivity.
  - reflexivity.
  - repeat constructor.
  - repeat constructor.
  - apply Exists_cons_hd. reflexivity.
Defined.

(** X10.  On a table whose [Country] cells are entity names and whose GHI
    column, if it has one, holds no strings, the ranking returns a table,
    and that table is empty exactly when the input is empty or has no GHI
    column: with a GHI column the caller gets either the message table or a
    ranking with at least one row. *)
Theorem ranking_is_empty_only_without_input
    (sort : list (value * value) -> list (value * value))
    (df : DataFrame) (jb : nat) :
  sorts_descending sort ->
  col_pos "Country" (columns df) = Some jb ->
  Forall (fun r => is_str (cell jb (snd r)) = true) (rows df) ->
  (forall jg, col_pos "GHI" (columns df) = Some jg ->
              Forall (fun r => is_str (cell jg (snd r)) = false) (rows df)) ->
  exists result,
    create_ghi_ranking_table sort df = Ok result /\
    (df_empty result = true <->
     df_empty df = true \/ in_columns "GHI" df = false).
Proof.
  intros Hsort Hb Hstr Hnum.
  destruct (df_empty df) eqn:He.
  { exists pd_DataFrame. unfold create_ghi_ranking_table. rewrite He.
    split; [ reflexivity | split; auto ]. }
  destruct (in_columns "GHI" df) eqn:Hin.
  2:{ exists pd_DataFrame. unfold create_ghi_ranking_table. rewrite He, Hin.
      split; [ reflexivity | split; auto ]. }
  destruct (in_columns_col_pos _ _ Hin) as [jg Hg].
  specialize (Hnum jg Hg).
  rewrite (ranking_run sort df jg He Hg Hnum), Hb.
  destruct (retained_rows jg df) as [|r0 rest] eqn:Er.
  - eexists. split; [ reflexivity |].
    split; [ discriminate | intros [|]; discriminate ].
  - cbv zeta. eexists. split; [ reflexivity |].
    split; [| intros [|]; discriminate ].
    intros Hempty. exfalso.
    destruct (Hsort (group_means jb jg df)) as [Hperm _].
    assert (Hr0 : In r0 (retained_rows jg df)) by (rewrite Er; now left).
    rewrite List.Forall_forall in Hstr.
    destruct (str_is_Str _ (Hstr r0 (retained_rows_subset _ _ _ Hr0))) as [c Hc].
    assert (Hin' : In (Str c, entity_mean jb jg df c) (group_means jb jg df)).
    { apply group_means_In; [ now apply List.Forall_forall |]. eauto 6. }
    apply (Permutation_in _ (Permutation_sym Hperm)) in Hin'.
    destruct (sort (group_means jb jg df)) as [|it sorted]; [ destruct Hin' |].
    discriminate Hempty.
Qed.

Lemma ranking_is_empty_only_without_input_witness :
  exists result,
    create_ghi_ranking_table stable_sort_descending night_table = Ok result /\
    df_empty result = false.
Proof.
  destruct (ranking_is_empty_only_without_input stable_sort_descending
              night_table 1 stable_sort_is_descending)
    as (result & Hrun & Hempty).
  - reflexivity.
  - repeat constructor.
  - intros jg Hg. inversion Hg; subst. repeat constructor.
  - exists result. split; [ exact Hrun |].
    destruct (df_empty result); [| reflexivity ].
    destruct (proj1 Hempty eq_refl); discriminate.
Defined.

Lemma rmapM_raises {A B} (f : A -> result B) (e0 : exn) l :
  (forall a, f a = Raise e0 \/ exists b, f a = Ok b) ->
  Exists (fun a => f a = Raise e0) l -> rmapM f l = Raise e0.
Proof.
  intros Hf. induction 1 as [a l Ha|a l _ IH]; cbn.
  - now rewrite Ha.
  - destruct (Hf a) as [->|[b ->]]; [ reflexivity |]. cbn. now rewrite IH.
Qed.

(** X11.  If a table that is not empty has a string in its GHI column, the
    ranking raises a TypeError: the comparison with 50 fails before any
    row is filtered. *)
Theorem ranking_raises_on_text_in_ghi
    (sort : list (value * value) -> list (value * value))
    (df : DataFrame) (jg : nat) :
  df_empty df = false ->
  col_pos "GHI" (columns df) = Some jg ->
  Exists (fun r => is_str (cell jg (snd r)) = true) (rows df) ->
  exists msg, create_ghi_ranking_table sort df = Raise (TypeError msg).
Proof.
  intros He Hg Hex. unfold create_ghi_ranking_table.
  assert (Hin : in_columns "GHI" df = true).
  { apply in_columns_true. eapply nth_error_In, col_pos_Some, Hg. }
  rewrite He, Hin. cbn [orb negb]. unfold df_getitem. rewrite Hg.
  cbn [mbind result_bind rbind]. unfold series_gt. cbn [s_items].
  eexists. erewrite rmapM_raises; [ reflexivity | |].
  - intros it. destruct (snd it); cbn; eauto.
  - apply List.Exists_exists in Hex. destruct Hex as (r & Hr & Hs).
    apply List.Exists_exists. exists (fst r, cell jg (snd r)).
    split; [ apply in_map_iff; eauto |].
    cbn. destruct (cell jg (snd r)); try discriminate. reflexivity.
Qed.

Lemma ranking_raises_on_text_in_ghi_witness :
  exists msg,
    create_ghi_ranking_table stable_sort_descending text_table
    = Raise (TypeError msg).
Proof.
  apply (ranking_raises_on_text_in_ghi stable_sort_descending text_table 0).
  - reflexivity.
  - reflexivity.
  - apply Exists_cons_tl, Exists_cons_hd. reflexivity.
Defined.

(** X12.  If a table has a GHI column without strings and a row above 50
    but no [Country] column, the ranking raises a KeyError when it groups
    the rows. *)
Theorem ranking_raises_without_entity_column
    (sort : list (value * value) -> list (value * value))
    (df : DataFrame) (jg : nat) :
  col_pos "GHI" (columns df) = Some jg ->
  col_pos "Country" (columns df) = None ->
  Forall (fun r => is_str (cell jg (snd r)) = false) (rows df) ->
  Exists (fun r => exceeds 50 (cell jg (snd r)) = true) (rows df) ->
  create_ghi_ranking_table sort df = Raise (KeyError "Country").
Proof.
  intros Hg Hb Hnum Hex.
  assert (Hret : retained_rows jg df <> []).
  { apply List.Exists_exists in Hex. destruct Hex as (r & Hr & Hgt).
    intros E. assert (Hin : In r (retained_rows jg df)).
    { apply filter_In. split; assumption. }
    rewrite E in Hin. destruct Hin. }
  assert (He : df_empty df = false).
  { unfold df_empty. destruct (columns df); [ discriminate |].
    destruct (rows df); [| reflexivity ]. now contradiction Hret. }
  rewrite (ranking_run sort df jg He Hg Hnum), Hb.
  destruct (retained_rows jg df); [ congruence | reflexivity ].
Qed.

Lemma ranking_raises_without_entity_column_witness :
  create_ghi_ranking_table stable_sort_descending table_without_country
  = Raise (KeyError "Country").
Proof.
  apply (ranking_raises_without_entity_column stable_sort_descending
           table_without_country 0).
  - reflexivity.
  - reflexivity.
  - repeat constructor.
  - apply Exists_cons_hd. reflexivity.
Defined.

(** X13.  The ranking of a table the aggregator returned never raises when
    the GHI column, if there is one, holds no strings. *)
Theorem ranking_of_aggregate_never_raises
    (sort : list (value * value) -> list (value * value))
    (country_list : list string) (w : World) (c c' : Caches)
    (combined : DataFrame) (evs : list event) :
  country_cache_sound c ->
  load_all_countries_data_wrapped country_list w c = (Ok combined, c', evs) ->
  (forall jg, col_pos "GHI" (columns combined) = Some jg ->
              Forall (fun r => is_str (cell jg (snd r)) = false) (rows combined)) ->
  exists result, create_ghi_ranking_table sort combined = Ok result.
Proof.
  intros Hs Hrun Hnum.
  destruct (df_empty combined) eqn:He.
  { exists pd_DataFrame. unfold create_ghi_ranking_table. now rewrite He. }
  destruct (in_columns "GHI" combined) eqn:Hin.
  2:{ exists pd_DataFrame. unfold create_ghi_ranking_table. now rewrite He, Hin. }
  destruct (in_columns_col_pos _ _ Hin) as [jg Hg].
  rewrite (ranking_run sort combined jg He Hg (Hnum jg Hg)).
  pose proof (aggregator_carries_country _ _ _ _ _ _ Hs Hrun He) as Hc.
  destruct (in_columns_col_pos _ _ Hc) as [jb ->].
  destruct (retained_rows jg combined); eauto.
Qed.

Lemma ranking_of_aggregate_never_raises_witness :
  exists combined c' evs result,
    load_all_countries_data_wrapped default_country_list sample_world no_caches
    = (Ok combined, c', evs) /\
    create_ghi_ranking_table stable_sort_descending combined = Ok result.
Proof.
  destruct (aggregator_run default_country_list sample_world no_caches)
    as (dfs & c' & evs & Hm & _ & Hrun).
  destruct (ranking_of_aggregate_never_raises stable_sort_descending
              default_country_list sample_world no_caches c' _ evs
              (proj1 no_caches_sound) Hrun) as [result Hres].
  - vm_compute in Hm. inversion Hm; subst. intros jg Hg.
    vm_compute in Hg. inversion Hg; subst. repeat constructor.
  - eexists _, c', evs, result. split; [ exact Hrun | exact Hres ].
Defined.

(** ** The metric selector of the comparison page *)

(** X14.  On the comparison page every metric the select box offers can be
    drawn: for a table the aggregator returned that is not empty, and any
    metric among those offered, the boxplot call returns a figure, never
    [None] and never an exception, titled with the metric and holding one
    value per row. *)
Theorem offered_metric_always_plots
    (country_list : list string) (w : World) (c c' : Caches)
    (df : DataFrame) (evs : list event) (metric : string) :
  country_cache_sound c ->
  load_all_countries_data_wrapped country_list w c = (Ok df, c', evs) ->
  df_empty df = false ->
  In metric (metrics_present df) ->
  In metric metrics_available /\
  exists fig,
    main_boxplot df metric = Ok (Some fig) /\
    fig_title fig = metric +:+ " Distribution by Country" /\
    length (fig_y fig) = length (rows df).
Proof.
  intros Hs Hrun He Hin. unfold metrics_present in Hin.
  apply filter_In in Hin. destruct Hin as [Hav Hm].
  split; [ exact Hav |].
  pose proof (aggregator_carries_country _ _ _ _ _ _ Hs Hrun He) as Hc.
  destruct (in_columns_col_pos _ _ Hc) as [jc Hjc].
  destruct (in_columns_col_pos _ _ Hm) as [jm Hjm].
  unfold main_boxplot, create_comparison_boxplot. rewrite He, Hm.
  cbn [orb negb]. unfold px_box.
  rewrite !(px_column_ok _ _ _ _ Hjc), (px_column_ok _ _ _ _ Hjm).
  eexists. split; [ reflexivity |]. split; [ reflexivity |].
  cbn. apply length_map.
Qed.

Lemma offered_metric_always_plots_witness :
  exists combined fig,
    main_boxplot combined "GHI" = Ok (Some fig) /\
    fig_title fig = "GHI Distribution by Country".
Proof.
  destruct (aggregator_run default_country_list sample_world no_caches)
    as (dfs & c' & evs & Hm & _ & Hrun).
  vm_compute in Hm. inversion Hm; subst; clear Hm.
  destruct (offered_metric_always_plots default_country_list sample_world
              no_caches _ _ _ "GHI" (proj1 no_caches_sound) Hrun)
    as (_ & fig & Hfig & Htitle & _); [ reflexivity | now left |].
  eexists _, fig. split; [ exact Hfig | exact Htitle ].
Defined.

(** X15.  The default position handed to the select box never fails and is
    always 0: when the table has a GHI column, GHI is the first metric
    offered; when it has none, the fallback 0 is taken and [list.index],
    which would raise, is not called. *)
Theorem default_metric_is_first (df : DataFrame) :
  default_metric_index (metrics_present df) = Ok 0%nat /\
  (in_columns "GHI" df = true ->
   nth_error (metrics_present df) 0 = Some "GHI") /\
  (in_columns "GHI" df = false ->
   exists e, list_index "GHI" (metrics_present df) = Raise e).
Proof.
  unfold metrics_present, metrics_available. cbn [List.filter].
  destruct (in_columns "GHI" df).
  - split; [ reflexivity |]. split; [ reflexivity | discriminate ].
  - repeat destruct (in_columns _ df);
      (split; [ reflexivity |]); (split; [ discriminate |]);
      intros _; eexists; reflexivity.
Qed.

Lemma default_metric_is_first_witness :
  default_metric_index (metrics_present sample_table) = Ok 0%nat /\
  nth_error (metrics_present sample_table) 0 = Some "GHI" /\
  exists e, list_index "GHI" (metrics_present pd_DataFrame) = Raise e.
Proof.
  destruct (default_metric_is_first sample_table) as (Hidx & Hghi & _).
  destruct (default_metric_is_first pd_DataFrame) as (_ & _ & Hraise).
  split; [ exact Hidx |].
  split; [ apply Hghi; reflexivity | apply Hraise; reflexivity ].
Defined.

(** ** The loader keeps the fields of the file *)

Lemma remove_nth_col_pos ts col header :
  forall j i,
    col_pos ts header = Some j -> col_pos col header = Some i -> col <> ts ->
    exists k,
      col_pos col (remove_nth j header) = Some k /\
      forall r : list value, cell k (remove_nth j r) = cell i r.
Proof.
  unfold cell.
  induction header as [|h header IH]; intros j i Hj Hi Hne; [ discriminate |].
  cbn [col_pos] in Hj, Hi.
  destruct (String.eqb ts h) eqn:Eth.
  - inversion Hj; subst. apply String.eqb_eq in Eth. subst h.
    assert (Ec : String.eqb col ts = false) by now apply String.eqb_neq.
    rewrite Ec in Hi.
    destruct (col_pos col header) as [i'|] eqn:Hi'; [| discriminate ].
    inversion Hi; subst. exists i'. split; [ exact Hi' |].
    intros [|x r]; [ now destruct i' | reflexivity ].
  - destruct (col_pos ts header) as [j'|] eqn:Hj'; [| discriminate ].
    inversion Hj; subst. cbn [remove_nth col_pos].
    destruct (String.eqb col h) eqn:Ech.
    + inversion Hi; subst. exists 0%nat. split; [ reflexivity |].
      intros [|x r]; reflexivity.
    + destruct (col_pos col header) as [i'|] eqn:Hi'; [| discriminate ].
      inversion Hi; subst.
      destruct (IH j' i' eq_refl eq_refl Hne) as (k & Hk & Hcells).
      exists (S k). rewrite Hk. split; [ reflexivity |].
      intros [|x r]; [ reflexivity | apply Hcells ].
Qed.

Lemma col_pos_app_old col cols extra k :
  col_pos col cols = Some k -> col_pos col (cols ++ extra) = Some k.
Proof.
  revert k. induction cols as [|c cols IH]; intros k H; [ discriminate |].
  cbn in *. destruct (String.eqb col c); [ exact H |].
  destruct (col_pos col cols) as [k'|]; [| discriminate ].
  now rewrite (IH k' eq_refl).
Qed.

Lemma cell_app_old cells extra k :
  (k < length cells)%nat -> cell k (cells ++ extra) = cell k cells.
Proof. intros H. unfold cell. now apply app_nth1. Qed.

Lemma cell_insert_other cells v :
  forall j k, j <> k -> cell k (<[j := v]> cells) = cell k cells.
Proof.
  unfold cell. induction cells as [|x cells IH]; intros j k Hne; [ reflexivity |].
  destruct j as [|j], k as [|k]; cbn; try reflexivity; try congruence.
  apply IH. congruence.
Qed.

Lemma df_setitem_keeps_column df0 col k v :
  col <> "Country" ->
  col_pos col (columns df0) = Some k ->
  Forall (fun r => length (snd r) = length (columns df0)) (rows df0) ->
  col_pos col (columns (df_setitem df0 "Country" v)) = Some k /\
  List.map (fun r => cell k (snd r)) (rows (df_setitem df0 "Country" v))
  = List.map (fun r => cell k (snd r)) (rows df0).
Proof.
  intros Hne Hk Hal. unfold df_setitem.
  destruct (col_pos "Country" (columns df0)) as [jc|] eqn:Hc; cbn [columns rows].
  - split; [ exact Hk |]. rewrite map_map. apply map_ext. intros r. cbn [snd].
    apply cell_insert_other. intros ->.
    apply col_pos_Some in Hk, Hc. congruence.
  - split; [ now apply col_pos_app_old |].
    rewrite map_map. apply map_ext_in. intros r Hr. cbn [snd].
    apply cell_app_old. rewrite List.Forall_forall in Hal.
    rewrite (Hal r Hr). eapply col_pos_lt; eauto.
Qed.

(** X16.  The loader keeps the data of the file: every column of the file
    other than [Timestamp] and [Country] is a column of the table it
    returns, holding the file's values for that column in file order. *)
Theorem loader_keeps_fields
    (name filename path col : string) (w : World) (c : Caches)
    (header : list string) (records : list (list value)) (i : nat) :
  filename_map !! name = Some filename ->
  resolved_path w filename = Some path ->
  fs w (abspath w path) = Some (Csv header records) ->
  file_aligned (Csv header records) ->
  In "Timestamp" header ->
  col_pos col header = Some i ->
  col <> "Timestamp" -> col <> "Country" ->
  exists df evs k,
    load_country_data_wrapped name w c = (Ok df, c, evs) /\
    col_pos col (columns df) = Some k /\
    List.map (fun r => cell k (snd r)) (rows df) = List.map (cell i) records.
Proof.
  intros Hf Hres Hfile Hal Hts Hi Hnt Hnc.
  destruct (loader_body_resolved _ _ _ c _ Hf Hres) as (pre & -> & _ & _).
  destruct (col_pos_In _ _ Hts) as [j Hj].
  destruct (remove_nth_col_pos _ _ _ _ _ Hj Hi Hnt) as (k & Hk & Hcells).
  set (df0 := mkDataFrame (remove_nth j header)
                (List.map (fun r => (cell j r, remove_nth j r)) records)).
  assert (Hp : parse_file path "Timestamp" (Some (Csv header records)) = Ok df0).
  { unfold parse_file. now rewrite Hj. }
  pose proof (parse_file_rows_aligned _ _ _ _ Hal Hp) as Hrows.
  destruct (df_setitem_keeps_column df0 col k (Str name) Hnc Hk Hrows)
    as [Hk' Hvals].
  unfold after_read. rewrite Hfile, Hp.
  eexists _, _, k. split; [ reflexivity |]. split; [ exact Hk' |].
  rewrite Hvals. unfold df0. cbn [rows]. rewrite map_map.
  apply map_ext. exact Hcells.
Qed.

Lemma loader_keeps_fields_witness :
  exists df evs k,
    load_country_data_wrapped "Togo" sample_world no_caches
    = (Ok df, no_caches, evs) /\
    col_pos "DNI" (columns df) = Some k /\
    List.map (fun r => cell k (snd r)) (rows df) = [Num 7].
Proof.
  apply (loader_keeps_fields "Togo" "togo_clean.csv" "data/togo_clean.csv" "DNI"
           sample_world no_caches ["GHI"; "Timestamp"; "DNI"]
           [[Num 80; Str "2021-10-25 00:01"; Num 7]] 2).
  - reflexivity.
  - reflexivity.
  - reflexivity.
  - repeat constructor.
  - right. now left.
  - reflexivity.
  - discriminate.
  - discriminate.
Defined.
